(* ===== verification/_CoqProject ===== *)
-Q . S2P
Prelude.v
RustChar.v
Rng.v
WordPool.v
Compare.v
Board.v
Game.v
GameSpec.v
Ui.v
Session.v
Main.v
