(* ===== verification/Prelude.v ===== *)
(** * Fimshdle: a verification development of tymeklew/fimshdle

    The program ([src/src/main.rs], one file) is a terminal word-guessing
    game: a secret of five letters drawn from [words.txt], six attempts, and
    a colour per letter after each attempt.  Its parts, and how they call
    each other:
    - [main] switches the terminal into raw mode and the alternate screen,
      builds the [App] with [App::default], runs [run_app], and switches
      the terminal back;
    - [App::default] reads [words.txt], splits it on newlines, trims each
      line and draws one with [rand::thread_rng().gen_range];
    - [run_app] loops: draw a frame with [ui], read an event with
      crossterm's [event::read], and on a key dispatch on [app.status] and
      the key code, mutating [app.characters] (a [[[Character; 5]; 6]]
      grid), [app.position] (row, column) and [app.status]; Enter on a
      finished game replaces the [App] by a fresh [App::default()]; a
      failed draw or read returns its error;
    - [value] colours one letter of a submitted row against the secret;
    - [ui] draws the title, the grid or the end screen.

    ** Files, in dependency order
    - [Prelude] (this file): the [result] type of computations that may
      panic ([Ok] / [Panic] with [IndexOutOfBounds], [ArithmeticOverflow],
      [EmptyRange]) and its bind notation [x <- m ;; k] in [rs_scope];
      [usize] arithmetic on [N] below [2^64] that panics on overflow, as a
      debug build does; checked indexing [arr_get] and place updates
      [arr_update] on lists standing for arrays and vectors; [rmap] and
      [range] for fallible [for] loops; the tactics and hint databases the
      other files use.
    - [RustChar]: [char::to_uppercase], [char::to_lowercase],
      [str::to_lowercase], [str::contains], [char::is_whitespace] on
      [Ascii.ascii], with their laws proved on code points.
    - [Rng]: the interface [Class Rng] the game draws from, its one law,
      [gen_range] (which panics on an empty range) and an instance [Lcg64]
      used to run examples.
    - [WordPool]: [read_words] (the [unwrap] of [read_to_string]),
      [str_split], [trim], [load_words] and [choose_word] for the [word]
      initialiser of [App::default] (lines 33-40).
    - [Compare]: [CharacterStatus] and [value] (lines 51-57, 148-156), and
      [spec_compare], the comparison the specification describes.
    - [Board]: [Character], the grid, [set_character] / [set_status] and
      [row_string].
    - [Game]: [App], [Gamestatus], one definition per arm of the key match
      ([on_backspace], [on_char], [on_enter] with its status loop
      [eval_row]), [handle_key] (the whole match, lines 90-144),
      [app_default], and [run_events], the fold of [handle_key] over
      decoded events ([Decoded]); the invariant [app_inv], the reachable
      states [reachable], the colouring invariant [statuses_inv], the
      count [coloured_rows] of coloured rows, the measure [guesses_left].
    - [GameSpec]: the game of the specification (section 4.4) as an
      abstract machine [astep] over submitted guesses, typed letters, a
      status [AOngoing | AWon n | ALost] and the secret; the abstraction
      [abs] of an [App]; runs [arun] without leaving or restarting.
    - [Ui]: the title, the colour of a status, the grid read by index and
      the end-screen texts of [ui] (lines 157-244).
    - [Session]: [run_app] itself (lines 86-147), turn by turn: the frame
      [ui] renders inside [terminal.draw], the terminal's answer (a failed
      draw, a failed read, or a crossterm [Event] with its key's
      [KeyEventKind]), the decoding [if let Event::Key(key)] / [key.code],
      and [handle_key]; [start] is [App::default] then [run_app], and
      [start_file] reads [words.txt] first.
    - [Main]: [main] (lines 64-85) in a state-and-exit monad [TermM] over
      the terminal's modes, with an oracle saying which terminal calls
      succeed, composed with [Session.start] through [run_result_of].

    ** What is proved
    - Safety: if every line of [words.txt] has five chars or more, no trace
      of terminal answers makes the program panic
      ([Main.program_never_panics], through [Session.run_app_no_panic]),
      and [Esc], pressed or released, always ends the run
      ([Session.start_esc_exits]).
    - Invariant, by rule induction on [reachable]: the grid stays 6 x 5,
      the cursor within [row <= 5], [col <= 5], and exactly the rows before
      the cursor's row are coloured ([Game.reachable_inv]).
    - Equivalence: on a trace without I/O errors, [run_app] with its frames
      is the fold [run_events] of the key handling over the decoded events
      ([Session.run_app_events]); a failed draw or read returns the error
      ([Session.run_app_io_error]).
    - Refinement: the loop body refines the specification's machine on
      every key, leaving and going on ([GameSpec.handle_key_refines]), and
      so does [run_app] on runs ([Session.run_app_refines]); from it, six
      wrong guesses lose on row 5 with no seventh row
      ([GameSpec.six_wrong_guesses_lost]).
    - Termination of a game: [guesses_left] is a variant in the sense of
      a [for] loop: in a game that is on it lies in [1 .. 6] before and
      after every key, no key raises it and every submission lowers it, so
      no game takes a seventh submission ([Game.handle_key_guesses_left]).
    - Functional behaviour: a finished game's keys
      ([Game.finished_game_keys]), winning ([Game.enter_wins]), the keys at
      the edges of a row ([Game.boundary_keys_noop]), the frames
      ([Ui.ui_colours_submitted_rows]; [Ui.ui_end_screens]: in a reachable
      state the Won screen counts the coloured rows plus the winning row,
      and a Lost screen follows five coloured rows), the candidate secrets
      ([WordPool.load_words_length], [WordPool.load_words_clean]).
    - The terminal: [main] restores it exactly when raw mode could not be
      enabled or everything succeeded and the game returned
      ([Main.main_restored_iff]); the whole program quits cleanly on [Esc] ([Main.program_quits_cleanly]).
    - Where the code departs from the specification: [value] never gives
      [SomewhereElse] against a lowercase secret and never [Correct]
      against an uppercase one ([Compare]); a secret shorter than five
      chars, such as the empty last line of a file ending in a newline,
      panics ([Game.enter_short_word_panics],
      [WordPool.load_words_trailing_newline],
      [Main.short_secret_crashes]: the first guess crashes the whole
      program with the terminal left raw); an empty file gives the empty
      secret rather than an error; a secret of another length can never be
      won ([Game.enter_never_wins_wrong_length]); the title shows the
      secret ([Ui.ui_shows_secret]); key releases are handled as presses,
      so a keystroke types its letter twice where crossterm reports
      releases ([Session.release_types_twice]); [main] drops [run_app]'s error
      ([Main.program_drops_io_error]) and leaves the terminal in raw mode
      on a panic or a setup failure ([Main.main_panic_leaves_terminal],
      [Main.main_setup_error_leaves_raw]), also when [words.txt] is
      missing ([Main.missing_words_file_crashes]).

    ** Bounds and choices
    No definition needs fuel: [run_app] recurses on the finite trace of
    terminal answers it is given, which stands for what [draw] and
    [event::read] return; a trace that runs out leaves the loop blocked in
    [event::read] ([Blocked]), which is how the endless [loop] looks after
    finitely many turns.  The grid's bounds are the source's constants
    ([ROWS = 6], [COLS = 5]); [usize] is [N] below [2^64], far above the
    cursor's values, and overflow is a panic as in a debug build.  Chars
    are ASCII ([Ascii.ascii] below 128), where Rust's case mappings yield
    one char and agree with the ASCII ones.  The contents of [words.txt]
    are a section variable, the same at every reset.

    ** Not modelled
    What [main.rs] only calls, in libraries outside this repository: the
    terminal I/O itself (crossterm and tui calls are an oracle of success
    or failure, and [terminal.draw] is taken to render the frame before it
    can fail), tui's layout of the screen (the rectangles of [ui], computed
    in [f32] and split by [Layout], are pure rendering: the grid's contents
    and colours are modelled, where they are drawn is not), crossterm's
    decoding of terminal bytes into events and the payloads of mouse
    events, and [rand]'s generator (its algorithm and the uniformity of
    [gen_range]; the draw is the class [Rng] with its range law).  These
    are why the components Renderer, Input source and Random generator
    are partly modelled.  Also left out: the contents of a [words.txt]
    that is not valid UTF-8 are not told apart from a missing file
    ([read_words] takes either as [None]), the file is taken to read the
    same at every reset, and characters are ASCII. *)
From stdpp Require Export base list strings.
From Stdlib Require Export Ascii NArith.

Declare Scope rs_scope.
Delimit Scope rs_scope with rs.
Open Scope N_scope.

(** ** Rust panics as values *)

(** Why a Rust program aborts: an array or vector index out of range, an
    arithmetic overflow of a [usize] (debug builds check it), [gen_range]
    asked for an empty range, or [unwrap] on an [Err]. *)
Inductive panic_kind :=
  | IndexOutOfBounds
  | ArithmeticOverflow
  | EmptyRange
  | UnwrapFailed.

#[export] Instance panic_kind_eq_dec : EqDecision panic_kind.
Proof. solve_decision. Defined.

(** A computation that either returns or panics. *)
Inductive result (A : Type) : Type :=
  | Ok (a : A)
  | Panic (p : panic_kind).
Arguments Ok {A} a.
Arguments Panic {A} p.

Definition rbind {A B} (m : result A) (k : A -> result B) : result B :=
  match m with
  | Ok a => k a
  | Panic p => Panic p
  end.

Notation "x <- m ;; k" := (rbind m (fun x => k))
  (at level 63, m at next level, right associativity) : rs_scope.

Definition is_ok {A} (m : result A) : bool :=
  match m with Ok _ => true | Panic _ => false end.

Open Scope rs_scope.

(** ** [usize] arithmetic *)

(** A Rust [usize] on a 64-bit target, as an [N] below [2^64].  Addition
    and subtraction panic on overflow, as they do in a debug build. *)
Definition usize_max : N := 2 ^ 64 - 1.

Definition usize_add (a b : N) : result N :=
  if (a + b <=? usize_max)%N then Ok (a + b) else Panic ArithmeticOverflow.

Definition usize_sub (a b : N) : result N :=
  if (b <=? a)%N then Ok (a - b) else Panic ArithmeticOverflow.

(** ** Fixed-size arrays and vectors indexed by [usize] *)

(** [a[i]] as an rvalue: panics out of range. *)
Definition arr_get {A} (l : list A) (i : N) : result A :=
  match l !! N.to_nat i with
  | Some x => Ok x
  | None => Panic IndexOutOfBounds
  end.

(** [a[i] = f(a[i])] as a place update: the index is checked, then the new
    element is computed (it may itself panic) and written back. *)
Definition arr_update {A} (l : list A) (i : N) (f : A -> result A) : result (list A) :=
  x <- arr_get l i ;;
  y <- f x ;;
  Ok (<[N.to_nat i := y]> l).

(** [xs.iter().map(f)] where [f] may panic, collected in order. *)
Fixpoint rmap {A B} (f : A -> result B) (xs : list A) : result (list B) :=
  match xs with
  | [] => Ok []
  | x :: xs' => y <- f x ;; ys <- rmap f xs' ;; Ok (y :: ys)
  end.

(** [lo..hi] as a list of [usize]. *)
Definition range (lo hi : N) : list N := map N.of_nat (seq (N.to_nat lo) (N.to_nat (hi - lo))).

(** ** Automation *)

Create HintDb rs discriminated.
Create Rewrite HintDb rs_rw.

(** Close an arithmetic fact about concrete values by evaluation. *)
Ltac eval_arith := first [cbn; lia | vm_compute; first [reflexivity | lia | intros; discriminate]].

(** Prove a decidable proposition about concrete values by evaluating its
    decision procedure. *)
Ltac by_decide := apply (bool_decide_unpack _); vm_compute; reflexivity.

Ltac invc H := inversion H; clear H; subst.

(** ** Generic lemmas on usize arithmetic *)

Lemma usize_add_ok a b : a + b <= usize_max -> usize_add a b = Ok (a + b).
Proof. intros H. unfold usize_add. destruct (N.leb_spec (a + b) usize_max); [done | lia]. Qed.

Lemma usize_sub_ok a b : b <= a -> usize_sub a b = Ok (a - b).
Proof. intros H. unfold usize_sub. destruct (N.leb_spec b a); [done | lia]. Qed.

Lemma usize_sub_underflow a b : a < b -> usize_sub a b = Panic ArithmeticOverflow.
Proof. intros H. unfold usize_sub. destruct (N.leb_spec b a); [lia | done]. Qed.

(** A checked [+] or [-] that returns stays a [usize]. *)
Lemma usize_add_bound a b c : usize_add a b = Ok c -> c <= usize_max.
Proof. unfold usize_add. destruct (N.leb_spec (a + b) usize_max); intros Hc; invc Hc. done. Qed.

Lemma usize_sub_bound a b c : a <= usize_max -> usize_sub a b = Ok c -> c <= usize_max.
Proof. unfold usize_sub. destruct (N.leb_spec b a); intros ? Hc; invc Hc. lia. Qed.

(** Take apart a hypothesis [chain = Ok v] whose chain binds fallible
    steps and branches: every step that panics contradicts it. *)
Ltac rbind_inv H :=
  repeat match type of H with
         | context [if ?b then _ else _] => destruct b eqn:?
         | context [rbind ?m _] =>
             let E := fresh "E" in
             destruct m eqn:E; cbn [rbind] in H; [|discriminate H]
         end.

(** ** Generic lemmas on arrays *)

Lemma arr_get_ok {A} (l : list A) i :
  (N.to_nat i < length l)%nat -> exists x, l !! N.to_nat i = Some x /\ arr_get l i = Ok x.
Proof.
  intros H. unfold arr_get. destruct (lookup_lt_is_Some_2 l (N.to_nat i) H) as [x Hx].
  rewrite Hx. eauto.
Qed.

Lemma arr_get_lookup {A} (l : list A) i x : l !! N.to_nat i = Some x -> arr_get l i = Ok x.
Proof. unfold arr_get. by intros ->. Qed.

Lemma arr_get_oob {A} (l : list A) i :
  (length l <= N.to_nat i)%nat -> arr_get l i = Panic IndexOutOfBounds.
Proof. intros H. unfold arr_get. by rewrite lookup_ge_None_2. Qed.

Lemma arr_update_lookup {A} (l : list A) i x f :
  l !! N.to_nat i = Some x ->
  arr_update l i f = rbind (f x) (fun y => Ok (<[N.to_nat i := y]> l)).
Proof. intros Hx. unfold arr_update. by rewrite (arr_get_lookup _ _ _ Hx). Qed.

Lemma arr_update_length {A} (l l' : list A) i f :
  arr_update l i f = Ok l' -> length l' = length l.
Proof.
  unfold arr_update, arr_get. intros H.
  destruct (l !! N.to_nat i); [|done]. cbn in H.
  destruct (f a); cbn in H; [|done]. invc H. apply length_insert.
Qed.

#[export] Hint Resolve arr_get_lookup : rs.

(** ** Generic lemma on lists *)

(** A list whose first [n] elements satisfy [P] and whose others do not has
    [n] elements that satisfy [P]. *)
Lemma length_filter_prefix {A} (P : A -> Prop) `{!forall x, Decision (P x)} (l : list A) n :
  (n <= length l)%nat ->
  (forall r x, l !! r = Some x -> ((r < n)%nat -> P x) /\ ((n <= r)%nat -> ~ P x)) ->
  length (filter P l) = n.
Proof.
  revert n. induction l as [|x l IH]; intros n Hn Hl; [cbn in *; lia|].
  destruct (Hl 0%nat x eq_refl) as [H1 H2]. rewrite filter_cons.
  destruct n as [|n].
  - rewrite decide_False by (apply H2; lia). apply IH; [lia|].
    intros r y Hy. destruct (Hl (S r) y Hy) as [_ Hn0]. split; [intros ?; exfalso; lia | intros _; apply Hn0; lia].
  - rewrite decide_True by (apply H1; lia). cbn. f_equal. apply IH; [cbn in Hn; lia|].
    intros r y Hy. destruct (Hl (S r) y Hy) as [Ha Hb]. split; intros ?; [apply Ha | apply Hb]; lia.
Qed.
