(* ===== verification/RustChar.v ===== *)
(** * RustChar: the [char] and [String] operations the game calls

    Rust's [char] is a Unicode scalar value; the model takes the characters
    of [words.txt] and of key events to be ASCII ([Ascii.ascii] read as a
    code point below 128), where [char::to_uppercase] and
    [char::to_lowercase] yield exactly one character and agree with
    [to_ascii_uppercase] / [to_ascii_lowercase].  A Rust [String] is the
    sequence of its chars, [list ascii]. *)
From S2P Require Import Prelude.

Definition code (c : ascii) : N := N_of_ascii c.

Definition is_ascii_uppercase (c : ascii) : bool := (65 <=? code c) && (code c <=? 90).
Definition is_ascii_lowercase (c : ascii) : bool := (97 <=? code c) && (code c <=? 122).

Definition ascii_upper (c : ascii) : ascii :=
  if is_ascii_lowercase c then ascii_of_N (code c - 32) else c.
Definition ascii_lower (c : ascii) : ascii :=
  if is_ascii_uppercase c then ascii_of_N (code c + 32) else c.

(** [char::to_uppercase] and [char::to_lowercase] return iterators of chars
    (several for some non-ASCII letters, one on ASCII). *)
Definition char_to_uppercase (c : ascii) : list ascii := [ascii_upper c].
Definition char_to_lowercase (c : ascii) : list ascii := [ascii_lower c].

(** [c.to_string()]. *)
Definition char_to_string (c : ascii) : list ascii := [c].

(** [str::to_lowercase]: every char lowercased, in order. *)
Definition str_to_lowercase (s : list ascii) : list ascii :=
  concat (map char_to_lowercase s).

(** [str::contains(c)] for a [char] pattern. *)
Definition str_contains (s : list ascii) (c : ascii) : bool :=
  existsb (fun d => bool_decide (d = c)) s.

(** [char::is_whitespace] (Unicode White_Space) below U+0100. *)
Definition is_whitespace (c : ascii) : bool :=
  match code c with
  | 9 | 10 | 11 | 12 | 13 | 32 | 133 | 160 => true
  | _ => false
  end.

(** A string literal as the list of its chars. *)
Definition lit (s : string) : list ascii := String.list_ascii_of_string s.

Definition newline : ascii := "010"%char.
Definition space : ascii := " "%char.

#[export] Instance ascii_inhabited : Inhabited ascii := populate space.

(** ** Code points *)

Lemma code_lt c : code c < 256.
Proof. unfold code. destruct c as [[] [] [] [] [] [] [] []]; cbv; done. Qed.

Lemma code_inj c d : code c = code d -> c = d.
Proof.
  intros H. rewrite <- (ascii_N_embedding c), <- (ascii_N_embedding d). unfold code in H. by rewrite H.
Qed.

Lemma code_of_N n : n < 256 -> code (ascii_of_N n) = n.
Proof. apply N_ascii_embedding. Qed.

Lemma code_upper c :
  code (ascii_upper c) = if is_ascii_lowercase c then code c - 32 else code c.
Proof.
  unfold ascii_upper. destruct (is_ascii_lowercase c) eqn:E; [|done].
  apply code_of_N. pose proof (code_lt c). lia.
Qed.

Lemma code_lower c :
  code (ascii_lower c) = if is_ascii_uppercase c then code c + 32 else code c.
Proof.
  unfold ascii_lower. destruct (is_ascii_uppercase c) eqn:E; [|done].
  apply code_of_N. unfold is_ascii_uppercase in E.
  apply andb_prop in E as [_ E]. apply N.leb_le in E. lia.
Qed.

(** Reduce a goal on the case mappings to arithmetic on code points. *)
Ltac char_unfold :=
  repeat progress (unfold is_ascii_lowercase, is_ascii_uppercase in *;
                   rewrite ?code_upper, ?code_lower in * ).

Ltac char_split :=
  repeat match goal with
         | |- context [(?a <=? ?b)%N] => destruct (N.leb_spec a b)
         | H : context [(?a <=? ?b)%N] |- _ => destruct (N.leb_spec a b)
         | |- context [(?a <? ?b)%N] => destruct (N.ltb_spec a b)
         | H : context [(?a <? ?b)%N] |- _ => destruct (N.ltb_spec a b)
         end.

(** Reduce a goal on the case mappings of [c] to arithmetic on its code
    point: split on the ASCII letter ranges first, so that the case
    mappings compute, then on what remains. *)
Ltac char_arith c :=
  intros; pose proof (code_lt c);
  try apply code_inj; char_unfold;
  destruct (N.leb_spec 97 (code c)), (N.leb_spec (code c) 122),
           (N.leb_spec 65 (code c)), (N.leb_spec (code c) 90);
  cbn in *; char_split; cbn in *; try discriminate; try lia.

(** ** Laws of the case mappings *)

Lemma ascii_lower_upper c : ascii_lower (ascii_upper c) = ascii_lower c.
Proof. char_arith c. Qed.

Lemma ascii_upper_not_lowercase c : is_ascii_lowercase (ascii_upper c) = false.
Proof. char_arith c. Qed.

Lemma ascii_lower_not_uppercase c : is_ascii_uppercase (ascii_lower c) = false.
Proof. char_arith c. Qed.

Lemma ascii_lower_of_lowercase c : is_ascii_lowercase c = true -> ascii_lower c = c.
Proof. char_arith c. Qed.

(** ** Strings *)

Lemma str_to_lowercase_map s : str_to_lowercase s = map ascii_lower s.
Proof. unfold str_to_lowercase. induction s as [|c s IH]; [done|]. cbn. by rewrite IH. Qed.

Lemma str_to_lowercase_length s : length (str_to_lowercase s) = length s.
Proof. rewrite str_to_lowercase_map. apply length_map. Qed.

Lemma str_contains_spec s c : str_contains s c = true <-> c ∈ s.
Proof.
  unfold str_contains. rewrite existsb_exists, list_elem_of_In.
  split; [intros (d & Hd & Hb); apply bool_decide_eq_true in Hb; by subst
         |intros H; exists c; split; [done | by apply bool_decide_eq_true]].
Qed.

#[export] Hint Rewrite ascii_lower_upper ascii_upper_not_lowercase ascii_lower_not_uppercase
  str_to_lowercase_length : rs_rw.
