(* ===== verification/Rng.v ===== *)
(** * Rng: the random-number interface [App::default] draws the secret with

    The source calls [rand::thread_rng().gen_range(0..words.len())] (main.rs,
    line 39).  The generator itself (ChaCha12 behind [ThreadRng]) is a
    library, so it is an interface here: a class [Rng] whose one law is
    that a draw below [n > 0] is below [n].  Clients ([WordPool], [Game])
    are proved against the class; [Lcg64] is an instance to run them on. *)
From S2P Require Import Prelude.

Class Rng (G : Type) := {
  rng_below : G -> N -> N * G;
  rng_below_lt : forall g n, 0 < n -> (rng_below g n).1 < n
}.

Section GenRange.
Context {G : Type} `{Rng G}.

(** [Rng::gen_range(lo..hi)]: panics on an empty range, otherwise draws
    in [lo, hi). *)
Definition gen_range (g : G) (lo hi : N) : result (N * G) :=
  if (lo <? hi)%N then
    let '(x, g') := rng_below g (hi - lo) in Ok (lo + x, g')
  else Panic EmptyRange.

(** A draw of [gen_range(lo..hi)] lies in [lo, hi). *)
Lemma gen_range_in g lo hi x g' :
  gen_range g lo hi = Ok (x, g') -> lo <= x < hi.
Proof.
  unfold gen_range. destruct (N.ltb_spec lo hi); [|discriminate].
  pose proof (rng_below_lt g (hi - lo)) as Hlt.
  destruct (rng_below g (hi - lo)) as [y g''] eqn:E. intros Heq. invc Heq.
  cbn in Hlt. lia.
Qed.

Lemma gen_range_ok g lo hi :
  lo < hi -> exists x g', gen_range g lo hi = Ok (x, g').
Proof.
  intros Hlt. unfold gen_range. destruct (N.ltb_spec lo hi); [|lia].
  destruct (rng_below g (hi - lo)). eauto.
Qed.

Lemma gen_range_empty g lo hi : hi <= lo -> gen_range g lo hi = Panic EmptyRange.
Proof. intros Hle. unfold gen_range. destruct (N.ltb_spec lo hi); [lia | done]. Qed.
End GenRange.

(** A 64-bit linear congruential generator (Knuth's MMIX constants); the
    draw is the high half of the next state reduced modulo the bound. *)
Definition Lcg64 := N.

Definition lcg_next (s : N) : N :=
  (6364136223846793005 * s + 1442695040888963407) mod 2 ^ 64.

#[export] Program Instance Lcg64_rng : Rng Lcg64 := {
  rng_below s n := let s' := lcg_next s in (N.shiftr s' 32 mod n, s')
}.
Next Obligation. intros s n Hn. cbn. apply N.mod_lt. lia. Qed.

Lemma gen_range_in_witness : 0 <= 4 < 10.
Proof. apply (gen_range_in (0%N : Lcg64) 0 10 4 1442695040888963407). vm_compute. reflexivity. Defined.
