(* ===== verification/WordPool.v ===== *)
(** * WordPool: loading [words.txt] and drawing the secret word

    Models the [word] field initialiser of [App::default] (main.rs, lines
    33-40): the file's contents are split on ["\n"], every piece is
    trimmed, and one piece is drawn with [gen_range(0..words.len())].
    Reading the file ([std::fs::read_to_string(..).unwrap()]) is I/O: the
    model takes its result as an argument, and [read_words] is the
    [unwrap], which panics when the file could not be read. *)
From S2P Require Import Prelude RustChar Rng.

(** ** [str::split] on a one-char separator *)

Fixpoint str_split (sep : ascii) (s : list ascii) : list (list ascii) :=
  match s with
  | [] => [[]]
  | c :: s' =>
      let rest := str_split sep s' in
      if bool_decide (c = sep) then [] :: rest
      else match rest with
           | r :: rs => (c :: r) :: rs
           | [] => [[c]]
           end
  end.

(** ** [str::trim] *)

Fixpoint trim_start (s : list ascii) : list ascii :=
  match s with
  | c :: s' => if is_whitespace c then trim_start s' else s
  | [] => []
  end.

Definition trim_end (s : list ascii) : list ascii := rev (trim_start (rev s)).

Definition trim (s : list ascii) : list ascii := trim_end (trim_start s).

(** ** The candidate pool and the draw *)

(** [std::fs::read_to_string("words.txt").unwrap()] (lines 34-35): the
    file's contents, or a panic when the file is missing or is not UTF-8
    text ([None]). *)
Definition read_words (file : option (list ascii)) : result (list ascii) :=
  match file with
  | Some contents => Ok contents
  | None => Panic UnwrapFailed
  end.

(** [read_to_string("words.txt").unwrap().split("\n").map(|f| f.trim().to_string())
     .collect::<Vec<String>>()] *)
Definition load_words (contents : list ascii) : list (list ascii) :=
  map trim (str_split newline contents).

Section Choose.
Context {G : Type} `{Rng G}.

(** [words[rand::thread_rng().gen_range(0..words.len())].clone()] *)
Definition choose_word (contents : list ascii) (g : G) : result (list ascii * G) :=
  let words := load_words contents in
  drawn <- gen_range g 0 (N.of_nat (length words)) ;;
  w <- arr_get words drawn.1 ;;
  Ok (w, drawn.2).
End Choose.

(** ** Splitting *)

Lemma str_split_nonempty sep s : str_split sep s <> [].
Proof.
  destruct s as [|c s]; cbn; [done|]. case_bool_decide; [done|].
  destruct (str_split sep s); done.
Qed.

Lemma str_split_length sep s :
  length (str_split sep s) = S (count_occ ascii_dec s sep).
Proof.
  induction s as [|c s IH]; [done|]. cbn.
  pose proof (str_split_nonempty sep s) as Hne.
  destruct (ascii_dec c sep) as [->|Hc].
  - rewrite bool_decide_eq_true_2 by done. cbn. by rewrite IH.
  - rewrite bool_decide_eq_false_2 by done.
    destruct (str_split sep s); [done|]. by cbn in *.
Qed.

Lemma str_split_no_sep sep s p : p ∈ str_split sep s -> sep ∉ p.
Proof.
  revert p. induction s as [|c s IH]; intros p Hp; cbn in Hp.
  - apply list_elem_of_singleton in Hp. subst. apply not_elem_of_nil.
  - case_bool_decide.
    + apply elem_of_cons in Hp as [->|Hp]; [apply not_elem_of_nil | eauto].
    + destruct (str_split sep s) as [|r rs] eqn:E; [by apply str_split_nonempty in E|].
      apply elem_of_cons in Hp as [->|Hp]; [|apply IH; by right].
      rewrite elem_of_cons. intros [->|Hin]; [done|]. eapply IH; [by left | done].
Qed.

(** ** Trimming *)

Lemma trim_start_suffix s : exists pre, s = pre ++ trim_start s /\ Forall (fun c => is_whitespace c = true) pre.
Proof.
  induction s as [|c s IH]; cbn; [by exists []|].
  destruct (is_whitespace c) eqn:E; [|by exists []].
  destruct IH as (pre & Hs & Hpre). exists (c :: pre). split; [cbn; congruence | by constructor].
Qed.

Lemma trim_start_head s c s' : trim_start s = c :: s' -> is_whitespace c = false.
Proof.
  induction s as [|d s IH]; cbn; [done|].
  destruct (is_whitespace d) eqn:E; [done|]. by intros [= -> _].
Qed.

Lemma trim_start_idem s : trim_start (trim_start s) = trim_start s.
Proof.
  destruct (trim_start s) as [|c s'] eqn:E; [done|]. cbn.
  by rewrite (trim_start_head _ _ _ E).
Qed.

Lemma trim_start_no_lead s :
  (forall c s', s = c :: s' -> is_whitespace c = false) -> trim_start s = s.
Proof. destruct s as [|c s]; [done|]. intros H. cbn. by rewrite (H c s eq_refl). Qed.

(** [trim] removes whitespace only, and only at the two ends. *)
Lemma trim_infix s :
  exists pre suf, s = pre ++ trim s ++ suf /\
    Forall (fun c => is_whitespace c = true) (pre ++ suf).
Proof.
  unfold trim, trim_end.
  destruct (trim_start_suffix s) as (pre & Hs & Hpre).
  remember (trim_start s) as t eqn:Et.
  destruct (trim_start_suffix (rev t)) as (suf & Ht & Hsuf).
  remember (trim_start (rev t)) as u eqn:Eu.
  exists pre, (rev suf). split.
  - rewrite Hs. f_equal. by rewrite <- (rev_involutive t), Ht, rev_app_distr.
  - apply Forall_app. split; [done|]. by apply Forall_rev.
Qed.

(** Trimming twice is trimming once. *)
Lemma trim_idem s : trim (trim s) = trim s.
Proof.
  unfold trim, trim_end.
  remember (trim_start s) as t eqn:Et.
  destruct (trim_start_suffix (rev t)) as (suf & Ht & _).
  remember (trim_start (rev t)) as u eqn:Eu.
  rewrite (trim_start_no_lead (rev u)).
  - by rewrite rev_involutive, Eu, trim_start_idem.
  - intros c s' Hc.
    assert (Hts : trim_start s = c :: s' ++ rev suf).
    { by rewrite <- Et, <- (rev_involutive t), Ht, rev_app_distr, Hc. }
    exact (trim_start_head _ _ _ Hts).
Qed.

(** ** The pool *)

(** C23: [split] always yields at least one piece, so the pool is never empty:
    one more candidate than the file has newlines. *)
Lemma load_words_length contents :
  length (load_words contents) = S (count_occ ascii_dec contents newline).
Proof. unfold load_words. by rewrite length_map, str_split_length. Qed.

Lemma load_words_spec contents w :
  w ∈ load_words contents <-> exists line, line ∈ str_split newline contents /\ w = trim line.
Proof. unfold load_words. rewrite list_elem_of_fmap. split; intros (y & ? & ?); eauto. Qed.

Lemma str_split_snoc_sep sep s : str_split sep (s ++ [sep]) = str_split sep s ++ [[]].
Proof.
  induction s as [|c s IH]; cbn [app str_split].
  - by rewrite bool_decide_eq_true_2.
  - rewrite IH. pose proof (str_split_nonempty sep s) as Hne.
    case_bool_decide; [done|]. by destruct (str_split sep s).
Qed.

(** C24: A file that ends in a newline (as text files do) has an empty last
    line, so the empty word is a candidate. *)
Lemma load_words_trailing_newline s : [] ∈ load_words (s ++ [newline]).
Proof.
  apply load_words_spec. exists []. split; [|done].
  rewrite str_split_snoc_sep. apply elem_of_app. right. by left.
Qed.

(** C30: Every candidate secret is a line of the file with only whitespace
    removed, and only at its two ends: it holds no newline, and trimming it
    again changes nothing. *)
Lemma load_words_clean contents w :
  w ∈ load_words contents ->
  (newline ∉ w) /\ trim w = w /\
  exists line pre suf, line ∈ str_split newline contents /\ line = pre ++ w ++ suf /\
    Forall (fun c => is_whitespace c = true) (pre ++ suf).
Proof.
  intros Hw. apply load_words_spec in Hw as (line & Hline & ->).
  destruct (trim_infix line) as (pre & suf & Heq & Hws).
  split; [|split; [apply trim_idem | eauto 10]].
  intros Hin. apply (str_split_no_sep newline contents line Hline).
  rewrite Heq. apply elem_of_app. right. apply elem_of_app. by left.
Qed.

Section ChooseProps.
Context {G : Type} `{Rng G}.

(** Drawing the secret never panics, and the secret is a line of the file
    with its surrounding whitespace removed. *)
Lemma choose_word_ok contents (g : G) :
  exists w g', choose_word contents g = Ok (w, g') /\ w ∈ load_words contents.
Proof.
  unfold choose_word.
  destruct (gen_range_ok g 0 (N.of_nat (length (load_words contents)))) as (i & g' & Hg).
  { unfold load_words. rewrite length_map, str_split_length. lia. }
  rewrite Hg. cbn [rbind fst snd].
  pose proof (gen_range_in _ _ _ _ _ Hg) as Hi.
  destruct (arr_get_ok (load_words contents) i) as (w & Hw & ->); [lia|].
  exists w, g'. split; [done|]. by eapply list_elem_of_lookup_2.
Qed.
End ChooseProps.

(** ** Witnesses *)

Lemma load_words_clean_witness :
  lit "crane" ∈ load_words (lit " crane
slate") /\
  (newline ∉ lit "crane") /\ trim (lit "crane") = lit "crane" /\
  exists line pre suf, line ∈ str_split newline (lit " crane
slate") /\ line = pre ++ lit "crane" ++ suf /\
    Forall (fun c => is_whitespace c = true) (pre ++ suf).
Proof.
  assert (Hin : lit "crane" ∈ load_words (lit " crane
slate")) by by_decide.
  split; [exact Hin | exact (load_words_clean _ _ Hin)].
Defined.
