(* ===== verification/Compare.v ===== *)
(** * Compare: the per-letter evaluation [value]

    [CharacterStatus] (main.rs, lines 51-57) and [value] (lines 148-156),
    which colours one guessed letter against the secret, next to the
    comparison the specification describes (case-insensitive match at the
    position, else case-insensitive containment).  The theorems show where
    the two agree and where the code departs from it. *)
From S2P Require Import Prelude RustChar.

Inductive CharacterStatus :=
  | NotGuessed
  | Correct
  | SomewhereElse
  | Incorrect.

#[export] Instance CharacterStatus_eq_dec : EqDecision CharacterStatus.
Proof. solve_decision. Defined.

(** [fn value(character: char, word: String, comparison: char) -> CharacterStatus]:
    [Correct] when [comparison.to_string() == character.to_lowercase().to_string()],
    else [SomewhereElse] when [word.contains(character)], else [Incorrect]. *)
Definition value (character : ascii) (word : list ascii) (comparison : ascii) : CharacterStatus :=
  if bool_decide (char_to_string comparison = char_to_lowercase character) then Correct
  else if str_contains word character then SomewhereElse
  else Incorrect.

(** The comparison the specification describes for guessed letter [g] at
    position [i] of [secret] (its section 4.3). *)
Definition spec_compare (g : ascii) (secret : list ascii) (i : nat) : CharacterStatus :=
  match secret !! i with
  | Some s =>
      if bool_decide (ascii_lower g = ascii_lower s) then Correct
      else if str_contains (map ascii_lower secret) (ascii_lower g) then SomewhereElse
      else Incorrect
  | None => Incorrect
  end.

(** A secret as [words.txt] holds it: lowercase ASCII letters. *)
Definition lowercase_word (w : list ascii) : bool := forallb is_ascii_lowercase w.
Definition uppercase_word (w : list ascii) : bool := forallb is_ascii_uppercase w.

(** ** Case analysis of [value] *)

Lemma value_Correct_iff ch w cmp : value ch w cmp = Correct <-> cmp = ascii_lower ch.
Proof.
  unfold value, char_to_string, char_to_lowercase.
  case_bool_decide as Hc; [split; [by intros _; injection Hc | done]|].
  split; [by destruct (str_contains w ch) | intros ->; by contradict Hc].
Qed.

Lemma value_SomewhereElse_iff ch w cmp :
  value ch w cmp = SomewhereElse <-> cmp <> ascii_lower ch /\ ch ∈ w.
Proof.
  unfold value, char_to_string, char_to_lowercase. rewrite <- str_contains_spec.
  case_bool_decide as Hc; [split; [done | intros [Hne _]; by injection Hc]|].
  split; [destruct (str_contains w ch); [|done]; intros _; split; [by intros ->|done]|].
  intros [_ ->]. done.
Qed.

Lemma value_never_NotGuessed ch w cmp : value ch w cmp <> NotGuessed.
Proof. unfold value. by repeat case_match. Qed.

(** ** Where [value] departs from the specification *)

Lemma lowercase_word_spec w c : lowercase_word w = true -> c ∈ w -> is_ascii_lowercase c = true.
Proof.
  unfold lowercase_word. rewrite forallb_forall. intros H Hc. apply H. by apply list_elem_of_In.
Qed.

Lemma uppercase_word_spec w c : uppercase_word w = true -> c ∈ w -> is_ascii_uppercase c = true.
Proof.
  unfold uppercase_word. rewrite forallb_forall. intros H Hc. apply H. by apply list_elem_of_In.
Qed.

(** With a lowercase secret, a letter typed on the board (which stores it
    uppercased) is never found by the case-sensitive [word.contains]. *)
Lemma upper_not_in_lowercase_word w c : lowercase_word w = true -> ascii_upper c ∉ w.
Proof.
  intros Hw Hin. pose proof (lowercase_word_spec _ _ Hw Hin) as Hl.
  by rewrite ascii_upper_not_lowercase in Hl.
Qed.

(** C7: the board stores letters uppercased, [value] tests membership
    case-sensitively, so against a secret of lowercase letters no board
    letter is ever coloured [SomewhereElse]. *)
Theorem value_never_somewhere_else_lowercase (w : list ascii) (c cmp : ascii) :
  lowercase_word w = true -> value (ascii_upper c) w cmp <> SomewhereElse.
Proof.
  intros Hw. rewrite value_SomewhereElse_iff. intros [_ Hin].
  exact (upper_not_in_lowercase_word w c Hw Hin).
Qed.

Lemma value_never_somewhere_else_lowercase_witness :
  lowercase_word (lit "crane") = true /\
  value (ascii_upper "a") (lit "crane") "e" <> SomewhereElse.
Proof. split; [reflexivity | apply value_never_somewhere_else_lowercase; reflexivity]. Defined.

(** C6: for a lowercase secret, [value] on a board letter is the
    specification's comparison with every [SomewhereElse] demoted to
    [Incorrect]. *)
Theorem value_vs_spec_lowercase (w : list ascii) (g s : ascii) (i : nat) :
  lowercase_word w = true -> w !! i = Some s ->
  value (ascii_upper g) w s =
    match spec_compare g w i with
    | SomewhereElse => Incorrect
    | st => st
    end.
Proof.
  intros Hw Hs. unfold spec_compare. rewrite Hs.
  assert (Hsl : ascii_lower s = s).
  { apply ascii_lower_of_lowercase, (lowercase_word_spec w); [done|]. by eapply list_elem_of_lookup_2. }
  rewrite Hsl.
  destruct (value (ascii_upper g) w s) eqn:E.
  - by apply value_never_NotGuessed in E.
  - apply value_Correct_iff in E. rewrite ascii_lower_upper in E. subst. by rewrite bool_decide_eq_true_2.
  - apply value_SomewhereElse_iff in E as [_ Hin]. by apply upper_not_in_lowercase_word in Hin.
  - assert (Hne : s <> ascii_lower g).
    { intros Heq. rewrite <- ascii_lower_upper in Heq. apply (value_Correct_iff _ w) in Heq. congruence. }
    rewrite bool_decide_eq_false_2 by congruence. by destruct (str_contains _ _).
Qed.

Lemma value_vs_spec_lowercase_witness :
  lowercase_word (lit "crane") = true /\
  lit "crane" !! 3%nat = Some "n"%char /\
  value (ascii_upper "c") (lit "crane") "n" = Incorrect.
Proof.
  split; [reflexivity|]. split; [reflexivity|].
  rewrite (value_vs_spec_lowercase (lit "crane") "c" "n" 3); reflexivity.
Defined.

(** C8: against a secret of uppercase letters, [value] compares the
    position char with the lowercased guess, so no board letter is ever
    [Correct]. *)
Theorem value_never_correct_uppercase (w : list ascii) (c s : ascii) (i : nat) :
  uppercase_word w = true -> w !! i = Some s -> value (ascii_upper c) w s <> Correct.
Proof.
  intros Hw Hs. rewrite value_Correct_iff. intros ->.
  pose proof (uppercase_word_spec w _ Hw (list_elem_of_lookup_2 _ _ _ Hs)) as Hu.
  by rewrite ascii_lower_not_uppercase in Hu.
Qed.

Lemma value_never_correct_uppercase_witness :
  uppercase_word (lit "CRANE") = true /\
  lit "CRANE" !! 0%nat = Some "C"%char /\
  value (ascii_upper "c") (lit "CRANE") "C" <> Correct.
Proof.
  split; [reflexivity|]. split; [reflexivity|].
  apply (value_never_correct_uppercase _ _ _ 0); reflexivity.
Defined.
