(* ===== verification/Board.v ===== *)
(** * Board: the grid of guessed characters

    [struct Character] (main.rs, lines 45-50) and the field
    [characters: [[Character; 5]; 6]] of [App] (line 18), initialised to
    blanks in [App::default] (lines 27-30).  The fixed arrays are lists with
    the well-formedness [board_wf] (6 rows of 5 cells); the in-place writes
    [app.characters[r][c].character = ..] and [.status = ..] are nested
    checked updates, which panic out of range as Rust indexing does. *)
From S2P Require Import Prelude RustChar Compare.

Record Character := mkCharacter {
  character : ascii;
  status : CharacterStatus
}.

#[export] Instance Character_eq_dec : EqDecision Character.
Proof. solve_decision. Defined.

Definition ROWS : nat := 6.
Definition COLS : nat := 5.

(** [Character { character: ' ', status: CharacterStatus::NotGuessed }] *)
Definition blank : Character := {| character := space; status := NotGuessed |}.

#[export] Instance Character_inhabited : Inhabited Character := populate blank.

(** [[[blank; 5]; 6]] *)
Definition default_characters : list (list Character) := replicate ROWS (replicate COLS blank).

Definition board_wf (b : list (list Character)) : Prop :=
  length b = ROWS /\ Forall (fun row => length row = COLS) b.

#[export] Instance board_wf_dec b : Decision (board_wf b).
Proof. unfold board_wf. apply _. Defined.

(** [characters[r][c].character = ch] *)
Definition set_character (b : list (list Character)) (r c : N) (ch : ascii)
  : result (list (list Character)) :=
  arr_update b r (fun row =>
    arr_update row c (fun cell => Ok {| character := ch; status := status cell |})).

(** [characters[r][c].status = st] *)
Definition set_status (b : list (list Character)) (r c : N) (st : CharacterStatus)
  : result (list (list Character)) :=
  arr_update b r (fun row =>
    arr_update row c (fun cell => Ok {| character := character cell; status := st |})).

(** [row.iter().map(|f| f.character.to_string()).collect::<String>()] *)
Definition row_string (row : list Character) : list ascii :=
  concat (map (fun f => char_to_string (character f)) row).

(** ** Lemmas *)

Lemma default_characters_wf : board_wf default_characters.
Proof. split; [done|]. apply Forall_replicate. done. Qed.

Lemma row_string_map row : row_string row = map character row.
Proof. induction row as [|f row IH]; [done|]. cbn. unfold row_string in IH. by rewrite IH. Qed.

Lemma row_string_length row : length (row_string row) = length row.
Proof. by rewrite row_string_map, length_map. Qed.

Lemma board_wf_row b r row : board_wf b -> b !! r = Some row -> length row = COLS.
Proof. intros [_ Hf] Hr. by eapply (Forall_lookup_1 _ _ _ _ Hf). Qed.

Lemma board_wf_lookup b r : board_wf b -> (r < ROWS)%nat -> exists row, b !! r = Some row /\ length row = COLS.
Proof.
  intros Hwf Hr. destruct (lookup_lt_is_Some_2 b r) as [row Hrow]; [by rewrite (proj1 Hwf)|].
  exists row. split; [done|]. by eapply board_wf_row.
Qed.

(** A cell update inside the grid: the generic shape of [set_character] and
    [set_status]. *)
Lemma cell_update_ok (b : list (list Character)) (r c : N) (f : Character -> Character) :
  board_wf b -> (N.to_nat r < ROWS)%nat -> (N.to_nat c < COLS)%nat ->
  exists row cell, b !! N.to_nat r = Some row /\ row !! N.to_nat c = Some cell /\
    arr_update b r (fun row => arr_update row c (fun cell => Ok (f cell))) =
      Ok (<[N.to_nat r := <[N.to_nat c := f cell]> row]> b).
Proof.
  intros Hwf Hr Hc. destruct (board_wf_lookup b _ Hwf Hr) as (row & Hrow & Hlen).
  destruct (lookup_lt_is_Some_2 row (N.to_nat c)) as [cell Hcell]; [lia|].
  exists row, cell. split; [done|]. split; [done|].
  rewrite (arr_update_lookup _ _ _ _ Hrow), (arr_update_lookup _ _ _ _ Hcell). done.
Qed.

Lemma board_wf_insert b r row :
  board_wf b -> length row = COLS -> board_wf (<[r := row]> b).
Proof.
  intros [Hl Hf] Hrow. split; [by rewrite length_insert|].
  apply Forall_insert; done.
Qed.

(** A cell write that succeeds keeps the grid's shape. *)
Lemma cell_update_wf (b b' : list (list Character)) (r c : N) (f : Character -> Character) :
  board_wf b -> arr_update b r (fun row => arr_update row c (fun cell => Ok (f cell))) = Ok b' ->
  board_wf b'.
Proof.
  unfold arr_update at 1. intros Hwf H.
  destruct (arr_get b r) as [row|] eqn:Hr; [|done]. cbn [rbind] in H.
  destruct (arr_update row c _) as [row'|] eqn:Hu; [|done]. cbn [rbind] in H. invc H.
  apply board_wf_insert; [done|]. rewrite (arr_update_length _ _ _ _ Hu).
  unfold arr_get in Hr. destruct (b !! N.to_nat r) eqn:E; [|done]. invc Hr. by eapply board_wf_row.
Qed.

Lemma set_character_wf b r c ch b' : board_wf b -> set_character b r c ch = Ok b' -> board_wf b'.
Proof. apply cell_update_wf. Qed.

Lemma set_status_wf b r c st b' : board_wf b -> set_status b r c st = Ok b' -> board_wf b'.
Proof. apply cell_update_wf. Qed.

#[export] Hint Resolve default_characters_wf board_wf_insert : rs.
#[export] Hint Rewrite row_string_length : rs_rw.
