(* ===== verification/Game.v ===== *)
(** * Game: the [App] state machine driven by key events

    [struct App] (main.rs, lines 17-23), [enum Gamestatus] (58-63),
    [App::default] (24-44) and the key handling of the event loop
    [run_app] (86-147), whose body dispatches on the status and the key
    code.  Each arm of the [Ongoing] match is one definition
    ([on_backspace], [on_enter], [on_char]); [handle_key] is the whole
    match; [run_events] folds it over a finite trace of decoded events,
    leaving out the frames and the I/O errors, which [Session.run_app]
    adds.  The secret's file contents [words_txt] and the random generator
    are the parameters of a section.  The invariant of the reachable
    states ([app_inv], [statuses_inv]) is proved by rule induction on
    [reachable]. *)
From S2P Require Import Prelude RustChar Rng WordPool Compare Board.

Inductive Gamestatus :=
  | Ongoing
  | Won
  | Lost.

#[export] Instance Gamestatus_eq_dec : EqDecision Gamestatus.
Proof. solve_decision. Defined.

(** [position: [usize; 2]] is the pair (row, column): both indices are
    literals in the source, so indexing it cannot fail. *)
Record App := mkApp {
  characters : list (list Character);
  position : N * N;
  status : Gamestatus;
  word : list ascii;
  message : list ascii
}.

(** The key codes the loop distinguishes; every other [KeyCode] is
    [OtherKey]. *)
Inductive KeyCode :=
  | Backspace
  | Enter
  | Esc
  | Char (c : ascii)
  | OtherKey.

#[export] Instance KeyCode_eq_dec : EqDecision KeyCode.
Proof. solve_decision. Defined.

(** An event as the loop sees it: [Event::Key(key)] by its [key.code], or
    an event the loop ignores (mouse, resize, focus, paste). *)
Inductive Decoded :=
  | Key (code : KeyCode)
  | OtherEvent.

Definition jeromes : list ascii := lit "jeromes".

Definition row_of (app : App) : N := (position app).1.
Definition col_of (app : App) : N := (position app).2.

(** The state after an arm: the loop either returns or goes on. *)
Inductive Control (G : Type) :=
  | Exit
  | Continue (app : App) (g : G).
Arguments Exit {G}.
Arguments Continue {G} app g.

(** What is left when the trace of events runs out. *)
Inductive Outcome (G : Type) :=
  | Exited
  | Waiting (app : App) (g : G).
Arguments Exited {G}.
Arguments Waiting {G} app g.

(** [KeyCode::Backspace] while ongoing (lines 103-108). *)
Definition on_backspace (app : App) : result App :=
  if (1 <=? col_of app)%N then
    c <- usize_sub (col_of app) 1 ;;
    chars <- set_character (characters app) (row_of app) c space ;;
    col <- usize_sub (col_of app) 1 ;;
    Ok {| characters := chars; position := (row_of app, col); status := status app;
          word := word app; message := message app |}
  else Ok app.

(** [KeyCode::Char(char)] while ongoing (lines 135-141). *)
Definition on_char (app : App) (ch : ascii) : result App :=
  if (col_of app <? 5)%N then
    up <- arr_get (char_to_uppercase ch) 0 ;;
    chars <- set_character (characters app) (row_of app) (col_of app) up ;;
    col <- usize_add (col_of app) 1 ;;
    Ok {| characters := chars; position := (row_of app, col); status := status app;
          word := word app; message := message app |}
  else Ok app.

(** One turn of [for i in 0..5] (lines 124-128): the right-hand side is
    evaluated first (the cell's char, then [word.chars().collect()[i]],
    which panics when the word is shorter than [i + 1]), then written. *)
Definition eval_cell (chars : list (list Character)) (r : N) (w : list ascii) (i : N)
  : result (list (list Character)) :=
  row <- arr_get chars r ;;
  cell <- arr_get row i ;;
  cmp <- arr_get w i ;;
  set_status chars r i (value (character cell) w cmp).

Fixpoint eval_cells (idx : list N) (chars : list (list Character)) (r : N) (w : list ascii)
  : result (list (list Character)) :=
  match idx with
  | [] => Ok chars
  | i :: idx' => chars' <- eval_cell chars r w i ;; eval_cells idx' chars' r w
  end.

(** [for i in 0..5 { .. }] (lines 123-129). *)
Definition eval_row (chars : list (list Character)) (r : N) (w : list ascii)
  : result (list (list Character)) :=
  eval_cells (map N.of_nat (seq 0 COLS)) chars r w.

(** [KeyCode::Enter] while ongoing (lines 109-134). *)
Definition on_enter (app : App) : result App :=
  if (5 <=? col_of app)%N then
    row <- arr_get (characters app) (row_of app) ;;
    if bool_decide (str_to_lowercase (row_string row) = str_to_lowercase (word app)) then
      Ok {| characters := characters app; position := position app; status := Won;
            word := word app; message := jeromes |}
    else if (5 <=? row_of app)%N then
      Ok {| characters := characters app; position := position app; status := Lost;
            word := word app; message := message app |}
    else
      chars <- eval_row (characters app) (row_of app) (word app) ;;
      r <- usize_add (row_of app) 1 ;;
      Ok {| characters := chars; position := (r, 0); status := status app;
            word := word app; message := message app |}
  else Ok app.

Section Loop.
Context {G : Type} `{Rng G}.
(** The contents of [words.txt]; [App::default] reads the file on every
    reset, which the model takes to be unchanged while the game runs. *)
Variable words_txt : list ascii.

(** [App::default()] (lines 24-44). *)
Definition app_default (g : G) : result (App * G) :=
  wg <- choose_word words_txt g ;;
  Ok ({| characters := default_characters; position := (0, 0); status := Ongoing;
         word := wg.1; message := [] |}, wg.2).

(** The [match app.status { .. }] of the loop body (lines 90-144). *)
Definition handle_key (app : App) (g : G) (k : KeyCode) : result (Control G) :=
  match status app with
  | Lost =>
      match k with
      | Esc => Ok Exit
      | Enter => ag <- app_default g ;; Ok (Continue ag.1 ag.2)
      | _ => Ok (Continue app g)
      end
  | Won =>
      match k with
      | Esc => Ok Exit
      | Enter => ag <- app_default g ;; Ok (Continue ag.1 ag.2)
      | _ => Ok (Continue app g)
      end
  | Ongoing =>
      match k with
      | Esc => Ok Exit
      | Backspace => app' <- on_backspace app ;; Ok (Continue app' g)
      | Enter => app' <- on_enter app ;; Ok (Continue app' g)
      | Char ch => app' <- on_char app ch ;; Ok (Continue app' g)
      | OtherKey => Ok (Continue app g)
      end
  end.

(** The key handling of [run_app] (lines 87-146) on a finite trace of
    decoded events, frames and read errors left out: a non-key event is
    skipped ([if let Event::Key(key)], line 89), [Esc] returns. *)
Fixpoint run_events (app : App) (g : G) (evs : list Decoded) : result (Outcome G) :=
  match evs with
  | [] => Ok (Waiting app g)
  | OtherEvent :: evs' => run_events app g evs'
  | Key k :: evs' =>
      c <- handle_key app g k ;;
      match c with
      | Exit => Ok Exited
      | Continue app' g' => run_events app' g' evs'
      end
  end.

(** [let app = App::default(); run_app(..)] (lines 72-73) on decoded events. *)
Definition start_events (g : G) (evs : list Decoded) : result (Outcome G) :=
  ag <- app_default g ;; run_events ag.1 ag.2 evs.
End Loop.

(** ** The invariant of reachable states *)

(** The grid keeps its 6 x 5 shape and the cursor stays inside it:
    [row <= 5] and [col <= 5]. *)
Definition app_inv (app : App) : Prop :=
  board_wf (characters app) /\ (row_of app <= 5)%N /\ (col_of app <= 5)%N.

#[export] Instance app_inv_dec app : Decision (app_inv app).
Proof. unfold app_inv. apply _. Defined.

(** Decide the invariant of a concrete state by evaluation. *)
Ltac decide_inv := by_decide.

(** The row the loop writes when it evaluates a guess: each cell keeps its
    char and gets [value] against the word's char at its index. *)
Definition evaluated_row (row : list Character) (w : list ascii) : list Character :=
  zip_with (fun cell cmp => {| character := character cell;
                               Board.status := value (character cell) w cmp |}) row w.

(** ** Board writes under the invariant *)

Lemma set_character_ok b r c ch :
  board_wf b -> (N.to_nat r < ROWS)%nat -> (N.to_nat c < COLS)%nat ->
  exists row cell, b !! N.to_nat r = Some row /\ row !! N.to_nat c = Some cell /\
    set_character b r c ch =
      Ok (<[N.to_nat r := <[N.to_nat c := {| character := ch; Board.status := Board.status cell |}]> row]> b).
Proof. intros. unfold set_character. by apply (cell_update_ok b r c (fun cell => {| character := ch; Board.status := Board.status cell |})). Qed.

Lemma board_wf_insert_cell b r c row x :
  board_wf b -> b !! r = Some row -> board_wf (<[r := <[c := x]> row]> b).
Proof. intros Hwf Hr. apply board_wf_insert; [done|]. rewrite length_insert. by eapply board_wf_row. Qed.

#[export] Hint Resolve board_wf_insert_cell : rs.

Lemma eval_cell_step b r w i row cell cmp :
  b !! N.to_nat r = Some row -> row !! N.to_nat i = Some cell -> w !! N.to_nat i = Some cmp ->
  eval_cell b r w i =
    Ok (<[N.to_nat r := <[N.to_nat i := {| character := character cell;
                                           Board.status := value (character cell) w cmp |}]> row]> b).
Proof.
  intros Hr Hi Hw. unfold eval_cell, set_status.
  rewrite (arr_get_lookup _ _ _ Hr). cbn [rbind].
  rewrite (arr_get_lookup _ _ _ Hi). cbn [rbind].
  rewrite (arr_get_lookup _ _ _ Hw). cbn [rbind].
  rewrite (arr_update_lookup _ _ _ _ Hr). cbn [rbind]. by rewrite (arr_update_lookup _ _ _ _ Hi).
Qed.

(** The loop as a fold of in-place writes on the row. *)
Definition eval_fold (idx : list N) (row : list Character) (w : list ascii) : list Character :=
  fold_left (fun row i =>
    <[N.to_nat i := {| character := character (row !!! N.to_nat i);
                       Board.status := value (character (row !!! N.to_nat i)) w (w !!! N.to_nat i) |}]> row)
    idx row.

Lemma eval_cells_ok idx b r w row :
  b !! N.to_nat r = Some row ->
  Forall (fun i => N.to_nat i < length row /\ N.to_nat i < length w)%nat idx ->
  eval_cells idx b r w = Ok (<[N.to_nat r := eval_fold idx row w]> b).
Proof.
  revert b row. induction idx as [|i idx IH]; intros b row Hr Hidx; cbn.
  - by rewrite list_insert_id.
  - apply Forall_cons in Hidx as [[Hi Hw] Hidx].
    destruct (lookup_lt_is_Some_2 row _ Hi) as [cell Hcell].
    destruct (lookup_lt_is_Some_2 w _ Hw) as [cmp Hcmp].
    rewrite (eval_cell_step _ _ _ _ _ _ _ Hr Hcell Hcmp). cbn [rbind].
    rewrite (IH _ (<[N.to_nat i := {| character := character cell;
                                       Board.status := value (character cell) w cmp |}]> row)).
    + rewrite list_insert_insert_eq. f_equal. unfold eval_fold. cbn [fold_left].
      by rewrite (list_lookup_total_correct _ _ _ Hcell), (list_lookup_total_correct _ _ _ Hcmp).
    + apply list_lookup_insert_eq. by apply lookup_lt_Some in Hr.
    + eapply Forall_impl; [exact Hidx|]. cbn. intros j [? ?]. by rewrite length_insert.
Qed.

(** Evaluating a guess writes [value] of each of the five cells against
    the word, provided the word has at least five chars. *)
Lemma eval_row_ok b r w :
  board_wf b -> (N.to_nat r < ROWS)%nat -> (COLS <= length w)%nat ->
  exists row, b !! N.to_nat r = Some row /\
    eval_row b r w = Ok (<[N.to_nat r := evaluated_row row w]> b).
Proof.
  intros Hwf Hr Hw. destruct (board_wf_lookup b _ Hwf Hr) as (row & Hrow & Hlen).
  exists row. split; [done|]. unfold eval_row.
  rewrite (eval_cells_ok _ _ _ _ row Hrow).
  - do 2 f_equal. unfold COLS in *.
    do 5 (destruct row as [|? row]; [cbn in Hlen; lia|]). destruct row; [|cbn in Hlen; lia].
    do 5 (destruct w as [|? w]; [cbn in Hw; lia|]). reflexivity.
  - unfold COLS in *. repeat constructor; cbn; lia.
Qed.

(** ** Each arm under the invariant *)

Section Arms.
Variable app : App.
Hypothesis Hinv : app_inv app.

Lemma inv_row_lt : (N.to_nat (row_of app) < ROWS)%nat.
Proof. destruct Hinv as (_ & Hr & _). unfold ROWS. lia. Qed.

Lemma inv_current_row : exists row, characters app !! N.to_nat (row_of app) = Some row /\ length row = COLS.
Proof. destruct Hinv as (Hwf & _). apply board_wf_lookup; [done|apply inv_row_lt]. Qed.

(** Typing a char at column [col < 5] writes its uppercase form there
    and moves the cursor right. *)
Lemma on_char_ok ch :
  (col_of app < 5)%N ->
  exists row cell, characters app !! N.to_nat (row_of app) = Some row /\
    row !! N.to_nat (col_of app) = Some cell /\
    on_char app ch = Ok {|
      characters := <[N.to_nat (row_of app) :=
                       <[N.to_nat (col_of app) := {| character := ascii_upper ch;
                                                     Board.status := Board.status cell |}]> row]>
                      (characters app);
      position := (row_of app, col_of app + 1)%N; status := status app;
      word := word app; message := message app |}.
Proof.
  intros Hc. destruct Hinv as (Hwf & Hr & _).
  destruct (set_character_ok (characters app) (row_of app) (col_of app) (ascii_upper ch))
    as (row & cell & Hrow & Hcell & Hset); [done | apply inv_row_lt | unfold COLS; lia |].
  exists row, cell. split; [done|]. split; [done|].
  unfold on_char. destruct (N.ltb_spec (col_of app) 5); [|lia].
  unfold char_to_uppercase. rewrite (arr_get_lookup [ascii_upper ch] 0 (ascii_upper ch) eq_refl).
  cbn [rbind]. rewrite Hset. cbn [rbind]. rewrite usize_add_ok; [done|]. unfold usize_max. lia.
Qed.

(** Backspace at column [col >= 1] blanks the char left of the cursor
    and moves the cursor left. *)
Lemma on_backspace_ok :
  (1 <= col_of app)%N ->
  exists row cell, characters app !! N.to_nat (row_of app) = Some row /\
    row !! N.to_nat (col_of app - 1) = Some cell /\
    on_backspace app = Ok {|
      characters := <[N.to_nat (row_of app) :=
                       <[N.to_nat (col_of app - 1) := {| character := space;
                                                         Board.status := Board.status cell |}]> row]>
                      (characters app);
      position := (row_of app, col_of app - 1)%N; status := status app;
      word := word app; message := message app |}.
Proof.
  intros Hc. destruct Hinv as (Hwf & Hr & Hcol).
  destruct (set_character_ok (characters app) (row_of app) (col_of app - 1) space)
    as (row & cell & Hrow & Hcell & Hset); [done | apply inv_row_lt | unfold COLS; lia |].
  exists row, cell. split; [done|]. split; [done|].
  unfold on_backspace. destruct (N.leb_spec 1 (col_of app)); [|lia].
  rewrite usize_sub_ok by lia. cbn [rbind]. by rewrite Hset.
Qed.
End Arms.

(** ** The Enter arm *)

Lemma eval_cells_panic idx b r w row :
  b !! N.to_nat r = Some row ->
  Forall (fun i => N.to_nat i < length row)%nat idx ->
  Exists (fun i => length w <= N.to_nat i)%nat idx ->
  eval_cells idx b r w = Panic IndexOutOfBounds.
Proof.
  revert b row. induction idx as [|i idx IH]; intros b row Hr Hall Hex; [by apply Exists_nil in Hex|].
  apply Forall_cons in Hall as [Hi Hall]. cbn [eval_cells].
  destruct (lookup_lt_is_Some_2 row _ Hi) as [cell Hcell].
  destruct (decide (N.to_nat i < length w)%nat) as [Hw|Hw].
  - destruct (lookup_lt_is_Some_2 w _ Hw) as [cmp Hcmp].
    rewrite (eval_cell_step _ _ _ _ _ _ _ Hr Hcell Hcmp). cbn [rbind].
    eapply IH; [apply list_lookup_insert_eq; by apply lookup_lt_Some in Hr | |].
    + eapply Forall_impl; [exact Hall|]. cbn. intros j ?. by rewrite length_insert.
    + apply Exists_cons in Hex as [?|?]; [lia|done].
  - unfold eval_cell. rewrite (arr_get_lookup _ _ _ Hr). cbn [rbind].
    rewrite (arr_get_lookup _ _ _ Hcell). cbn [rbind]. rewrite arr_get_oob; [done|lia].
Qed.

(** When the word has fewer than five chars, the evaluation loop indexes
    past its end. *)
Lemma eval_row_panic b r w :
  board_wf b -> (N.to_nat r < ROWS)%nat -> (length w < COLS)%nat ->
  eval_row b r w = Panic IndexOutOfBounds.
Proof.
  intros Hwf Hr Hw. destruct (board_wf_lookup b _ Hwf Hr) as (row & Hrow & Hlen).
  unfold eval_row. apply (eval_cells_panic _ _ _ _ row Hrow).
  - unfold COLS in *. repeat constructor; cbn; lia.
  - apply Exists_exists. exists (N.of_nat (length w)). split; [|lia].
    apply list_elem_of_In, in_map, in_seq. unfold COLS in *. lia.
Qed.

Lemma eval_cells_wf idx b r w b' : board_wf b -> eval_cells idx b r w = Ok b' -> board_wf b'.
Proof.
  revert b. induction idx as [|i idx IH]; intros b Hwf H; cbn [eval_cells] in H; [by invc H|].
  destruct (eval_cell b r w i) as [b1|] eqn:E; [|done]. cbn [rbind] in H.
  apply (IH b1); [|done]. unfold eval_cell in E.
  destruct (arr_get b r); [|done]. cbn [rbind] in E.
  destruct (arr_get a i); [|done]. cbn [rbind] in E.
  destruct (arr_get w i); [|done]. cbn [rbind] in E.
  by eapply set_status_wf.
Qed.

Section EnterArm.
Variable app : App.
Variable row : list Character.
Hypothesis Hinv : app_inv app.
Hypothesis Hfull : col_of app = 5%N.
Hypothesis Hrow : characters app !! N.to_nat (row_of app) = Some row.

Let Hrow_len : length row = COLS.
Proof. destruct Hinv as (Hwf & _). by eapply board_wf_row. Qed.

Lemma on_enter_full :
  on_enter app =
    if bool_decide (str_to_lowercase (row_string row) = str_to_lowercase (word app)) then
      Ok {| characters := characters app; position := position app; status := Won;
            word := word app; message := jeromes |}
    else if (5 <=? row_of app)%N then
      Ok {| characters := characters app; position := position app; status := Lost;
            word := word app; message := message app |}
    else
      chars <- eval_row (characters app) (row_of app) (word app) ;;
      r <- usize_add (row_of app) 1 ;;
      Ok {| characters := chars; position := (r, 0); status := status app;
            word := word app; message := message app |}.
Proof.
  unfold on_enter. rewrite Hfull. cbn -[bool_decide].
  by rewrite (arr_get_lookup _ _ _ Hrow).
Qed.

(** A guess equal to the word up to case wins: the status becomes [Won],
    the message ["jeromes"], the cursor stays on the winning row. *)
Lemma on_enter_win :
  str_to_lowercase (row_string row) = str_to_lowercase (word app) ->
  on_enter app = Ok {| characters := characters app; position := position app; status := Won;
                       word := word app; message := jeromes |}.
Proof. intros Heq. rewrite on_enter_full. by rewrite bool_decide_eq_true_2. Qed.

Lemma on_enter_lost :
  str_to_lowercase (row_string row) <> str_to_lowercase (word app) -> row_of app = 5%N ->
  on_enter app = Ok {| characters := characters app; position := position app; status := Lost;
                       word := word app; message := message app |}.
Proof. intros Hne Hr. rewrite on_enter_full, bool_decide_eq_false_2 by done. by rewrite Hr. Qed.

Lemma on_enter_next :
  str_to_lowercase (row_string row) <> str_to_lowercase (word app) ->
  (row_of app < 5)%N -> (COLS <= length (word app))%nat ->
  on_enter app = Ok {| characters := <[N.to_nat (row_of app) := evaluated_row row (word app)]>
                                       (characters app);
                       position := (row_of app + 1, 0)%N; status := status app;
                       word := word app; message := message app |}.
Proof.
  intros Hne Hr Hw. rewrite on_enter_full, bool_decide_eq_false_2 by done.
  destruct (N.leb_spec 5 (row_of app)); [lia|].
  destruct (eval_row_ok (characters app) (row_of app) (word app)) as (row' & Hrow' & ->);
    [apply Hinv | unfold ROWS; lia | done |].
  rewrite Hrow in Hrow'. invc Hrow'. cbn [rbind].
  rewrite usize_add_ok; [done|]. unfold usize_max. lia.
Qed.

(** A word shorter than five chars never equals a full row, and
    evaluating the row indexes past its end. *)
Lemma on_enter_short_word :
  (row_of app < 5)%N -> (length (word app) < COLS)%nat ->
  on_enter app = Panic IndexOutOfBounds.
Proof.
  intros Hr Hw. rewrite on_enter_full, bool_decide_eq_false_2.
  - destruct (N.leb_spec 5 (row_of app)); [lia|].
    rewrite eval_row_panic; [done | apply Hinv | unfold ROWS; lia | done].
  - intros Heq. apply (f_equal length) in Heq.
    autorewrite with rs_rw in Heq. rewrite Hrow_len in Heq. lia.
Qed.
End EnterArm.

(** ** Each arm keeps the invariant and, but for a short word, returns *)

Lemma on_char_inv app ch app' : app_inv app -> on_char app ch = Ok app' -> app_inv app'.
Proof.
  intros Hinv H. destruct (N.ltb_spec (col_of app) 5) as [Hc|Hc].
  - destruct (on_char_ok app Hinv ch Hc) as (row & cell & Hrow & _ & E).
    rewrite E in H. invc H. destruct Hinv as (Hwf & Hr & _).
    split; [eauto with rs|]. unfold row_of, col_of in *. cbn. lia.
  - unfold on_char in H. destruct (N.ltb_spec (col_of app) 5); [lia|]. by invc H.
Qed.

Lemma on_backspace_inv app app' : app_inv app -> on_backspace app = Ok app' -> app_inv app'.
Proof.
  intros Hinv H. destruct (N.leb_spec 1 (col_of app)) as [Hc|Hc].
  - destruct (on_backspace_ok app Hinv Hc) as (row & cell & Hrow & _ & E).
    rewrite E in H. invc H. destruct Hinv as (Hwf & Hr & Hcol).
    split; [eauto with rs|]. unfold row_of, col_of in *. cbn. lia.
  - unfold on_backspace in H. destruct (N.leb_spec 1 (col_of app)); [lia|]. by invc H.
Qed.

Lemma on_enter_inv app app' : app_inv app -> on_enter app = Ok app' -> app_inv app'.
Proof.
  intros Hinv H. destruct (decide (col_of app = 5%N)) as [Hc|Hc].
  - destruct (inv_current_row app Hinv) as (row & Hrow & _).
    rewrite (on_enter_full app row) in H by assumption.
    case_bool_decide; [by invc H|].
    destruct (N.leb_spec 5 (row_of app)); [by invc H|].
    destruct (eval_row _ _ _) as [chars|] eqn:E; [|done]. cbn [rbind] in H.
    rewrite usize_add_ok in H by (unfold usize_max; lia). invc H.
    destruct Hinv as (Hwf & Hr & _). split; [by eapply eval_cells_wf|].
    unfold row_of, col_of in *. cbn. lia.
  - unfold on_enter in H. destruct (N.leb_spec 5 (col_of app)); [destruct Hinv as (_ & _ & ?); lia|].
    by invc H.
Qed.

Lemma on_char_returns app ch : app_inv app -> exists app', on_char app ch = Ok app'.
Proof.
  intros Hinv. destruct (N.ltb_spec (col_of app) 5) as [Hc|Hc].
  - destruct (on_char_ok app Hinv ch Hc) as (row & cell & _ & _ & E). eauto.
  - unfold on_char. destruct (N.ltb_spec (col_of app) 5); [lia|]. eauto.
Qed.

Lemma on_backspace_returns app : app_inv app -> exists app', on_backspace app = Ok app'.
Proof.
  intros Hinv. destruct (N.leb_spec 1 (col_of app)) as [Hc|Hc].
  - destruct (on_backspace_ok app Hinv Hc) as (row & cell & _ & _ & E). eauto.
  - unfold on_backspace. destruct (N.leb_spec 1 (col_of app)); [lia|]. eauto.
Qed.

Lemma on_enter_returns app :
  app_inv app -> (COLS <= length (word app))%nat -> exists app', on_enter app = Ok app'.
Proof.
  intros Hinv Hw. destruct (decide (col_of app = 5%N)) as [Hc|Hc].
  - destruct (inv_current_row app Hinv) as (row & Hrow & _).
    destruct (decide (str_to_lowercase (row_string row) = str_to_lowercase (word app))) as [Heq|Hne];
      [rewrite (on_enter_win app row) by assumption; eauto|].
    destruct (decide (row_of app = 5%N)) as [Hr|Hr];
      [rewrite (on_enter_lost app row) by assumption; eauto|].
    rewrite (on_enter_next app row) by (try assumption; destruct Hinv as (_ & ? & _); lia). eauto.
  - unfold on_enter. destruct (N.leb_spec 5 (col_of app)); [destruct Hinv as (_ & _ & ?); lia|]. eauto.
Qed.


Section LoopProps.
Context {G : Type} `{Rng G}.
Variable words_txt : list ascii.

(** Starting or restarting a game never fails: the board is blank, the
    cursor at the origin, the status [Ongoing], the message empty, and
    the word one of the trimmed lines of [words.txt]. *)
Theorem app_default_ok (g : G) :
  exists w g', app_default words_txt g =
    Ok ({| characters := default_characters; position := (0, 0)%N; status := Ongoing;
           word := w; message := [] |}, g') /\ w ∈ load_words words_txt.
Proof.
  destruct (choose_word_ok words_txt g) as (w & g' & E & Hin).
  exists w, g'. unfold app_default. by rewrite E.
Qed.

Lemma app_default_inv g app g' : app_default words_txt g = Ok (app, g') -> app_inv app.
Proof.
  destruct (app_default_ok g) as (w & g'' & E & _). rewrite E. intros Heq. invc Heq.
  split; [apply default_characters_wf|]. cbn. lia.
Qed.

(** Every key keeps the invariant. *)
Theorem handle_key_inv app g k app' g' :
  app_inv app -> handle_key words_txt app g k = Ok (Continue app' g') -> app_inv app'.
Proof.
  intros Hinv Hk. unfold handle_key in Hk.
  destruct (status app), k; cbn [rbind] in Hk; try (by invc Hk);
    try (destruct (app_default words_txt g) as [[a g'']|] eqn:E; cbn [rbind] in Hk; invc Hk;
         by eapply app_default_inv).
  - destruct (on_backspace app) eqn:E; cbn [rbind] in Hk; invc Hk. by eapply on_backspace_inv.
  - destruct (on_enter app) eqn:E; cbn [rbind] in Hk; invc Hk. by eapply on_enter_inv.
  - destruct (on_char app c) eqn:E; cbn [rbind] in Hk; invc Hk. by eapply on_char_inv.
Qed.

(** The states the loop can be in: those of a fresh game, and those one
    key away from a reachable state. *)
Inductive reachable : App -> G -> Prop :=
  | reachable_start g0 app g :
      app_default words_txt g0 = Ok (app, g) -> reachable app g
  | reachable_key app g k app' g' :
      reachable app g -> handle_key words_txt app g k = Ok (Continue app' g') ->
      reachable app' g'.

(** In every reachable state the grid is 6 x 5 and the cursor within
    [row <= 5], [col <= 5]. *)
Lemma reachable_app_inv app g : reachable app g -> app_inv app.
Proof.
  induction 1 as [g0 app g E | app g k app' g' _ IH E].
  - by eapply app_default_inv.
  - by eapply handle_key_inv.
Qed.

(** No key makes the loop panic, in any state of the invariant, as long
    as the secret word has at least five chars. *)
Lemma handle_key_no_panic app g k :
  app_inv app -> (COLS <= length (word app))%nat ->
  exists c, handle_key words_txt app g k = Ok c.
Proof.
  intros Hinv Hw. unfold handle_key.
  destruct (status app), k; cbn [rbind]; eauto;
    try (destruct (app_default_ok g) as (w & g' & -> & _); cbn [rbind]; eauto).
  - destruct (on_backspace_returns app Hinv) as [a ->]. eauto.
  - destruct (on_enter_returns app Hinv Hw) as [a ->]. eauto.
  - destruct (on_char_returns app c Hinv) as [a ->]. eauto.
Qed.

(** [Esc] leaves the loop whatever the status. *)
Lemma handle_key_esc app g : handle_key words_txt app g Esc = Ok Exit.
Proof. unfold handle_key. by destruct (status app). Qed.

(** C11: A finished game ([Won] or [Lost]) leaves on [Esc], starts a fresh game
    on [Enter] (blank board, cursor at the origin, a new secret from the
    pool), and ignores every other key. *)
Theorem finished_game_keys app g k :
  status app <> Ongoing ->
  match k with
  | Esc => handle_key words_txt app g k = Ok Exit
  | Enter => exists w g', handle_key words_txt app g k =
               Ok (Continue {| characters := default_characters; position := (0, 0)%N;
                               status := Ongoing; word := w; message := [] |} g') /\
             w ∈ load_words words_txt
  | _ => handle_key words_txt app g k = Ok (Continue app g)
  end.
Proof.
  intros Hs. unfold handle_key.
  destruct (status app); [done| |]; destruct k; try done;
    destruct (app_default_ok g) as (w & g' & -> & Hin); cbn; eauto.
Qed.

(** C29: At the edges of a row the keys do nothing, as the specification's
    cursor contract has it: a letter on a full row, [Backspace] at column
    0, [Enter] on a row not yet full. *)
Theorem boundary_keys_noop app g :
  status app = Ongoing ->
  ((5 <= col_of app)%N -> forall c, handle_key words_txt app g (Char c) = Ok (Continue app g)) /\
  (col_of app = 0%N -> handle_key words_txt app g Backspace = Ok (Continue app g)) /\
  ((col_of app < 5)%N -> handle_key words_txt app g Enter = Ok (Continue app g)).
Proof.
  intros Hs. unfold handle_key, on_char, on_backspace, on_enter. rewrite Hs.
  split; [|split]; intros Hc; [intros c|..]; char_split; try lia; done.
Qed.

(** C5: A secret shorter than five chars (the empty last line of a
    [words.txt] ending in a newline, say) crashes the game at the first
    wrong guess that is not on the last row. *)
Theorem enter_short_word_panics app g :
  app_inv app -> status app = Ongoing -> col_of app = 5%N -> (row_of app < 5)%N ->
  (length (word app) < COLS)%nat ->
  handle_key words_txt app g Enter = Panic IndexOutOfBounds.
Proof.
  intros Hinv Hs Hc Hr Hw. unfold handle_key. rewrite Hs.
  destruct (inv_current_row app Hinv) as (row & Hrow & _).
  by rewrite (on_enter_short_word app row) by assumption.
Qed.
End LoopProps.

(** ** Whole runs *)

(** Every arm keeps the secret word. *)
Ltac arm_word H :=
  repeat (match type of H with
          | context [if ?b then _ else _] => destruct b
          | context [rbind ?m _] => destruct m; cbn [rbind] in H
          end; try discriminate);
  invc H; by repeat split.

Lemma on_char_word app ch app' : on_char app ch = Ok app' -> word app' = word app.
Proof. unfold on_char. intros H. arm_word H. Qed.

Lemma on_backspace_word app app' : on_backspace app = Ok app' -> word app' = word app.
Proof. unfold on_backspace. intros H. arm_word H. Qed.

Lemma on_enter_word app app' : on_enter app = Ok app' -> word app' = word app.
Proof. unfold on_enter. intros H. arm_word H. Qed.

Lemma on_char_row app ch app' :
  on_char app ch = Ok app' -> row_of app' = row_of app /\ status app' = status app.
Proof. unfold on_char. intros H. arm_word H. Qed.

Lemma on_backspace_row app app' :
  on_backspace app = Ok app' -> row_of app' = row_of app /\ status app' = status app.
Proof. unfold on_backspace. intros H. arm_word H. Qed.

Section Runs.
Context {G : Type} `{Rng G}.
Variable words_txt : list ascii.

(** Every line of [words.txt], trimmed, has at least five chars. *)
Definition pool_ok : Prop := Forall (fun w => COLS <= length w)%nat (load_words words_txt).

Lemma handle_key_word app g k app' g' :
  handle_key words_txt app g k = Ok (Continue app' g') ->
  word app' = word app \/ word app' ∈ load_words words_txt.
Proof.
  unfold handle_key. intros Hk.
  destruct (status app), k; cbn [rbind] in Hk; try (invc Hk; by left);
    try (destruct (app_default_ok words_txt g) as (w & g'' & E & Hin);
         rewrite E in Hk; cbn [rbind] in Hk; invc Hk; by right).
  - destruct (on_backspace app) eqn:E; cbn [rbind] in Hk; invc Hk. left. by eapply on_backspace_word.
  - destruct (on_enter app) eqn:E; cbn [rbind] in Hk; invc Hk. left. by eapply on_enter_word.
  - destruct (on_char app c) eqn:E; cbn [rbind] in Hk; invc Hk. left. by eapply on_char_word.
Qed.

(** When every candidate secret has five chars or more, no trace of events
    makes [run_events] panic. *)
(** A key the loop goes on after keeps the invariant and, with such a
    pool, a secret of five chars or more. *)
Lemma handle_key_continue_ok app g k app' g' :
  pool_ok -> app_inv app -> (COLS <= length (word app))%nat ->
  handle_key words_txt app g k = Ok (Continue app' g') ->
  app_inv app' /\ (COLS <= length (word app'))%nat.
Proof.
  intros Hpool Hinv Hw Hk. split; [by eapply handle_key_inv|].
  destruct (handle_key_word _ _ _ _ _ Hk) as [->|Hin]; [done|].
  by eapply (Forall_forall (fun w => COLS <= length w)%nat).
Qed.

Lemma run_events_no_panic evs app g :
  pool_ok -> app_inv app -> (COLS <= length (word app))%nat ->
  exists o, run_events words_txt app g evs = Ok o.
Proof.
  intros Hpool. revert app g. induction evs as [|[k|] evs IH]; intros app g Hinv Hw; cbn [run_events]; eauto.
  destruct (handle_key_no_panic words_txt app g k Hinv Hw) as [[|app' g'] Hk]; rewrite Hk; cbn [rbind]; eauto.
  destruct (handle_key_continue_ok _ _ _ _ _ Hpool Hinv Hw Hk). by apply IH.
Qed.

(** The states the events lead to keep the invariant and a five-char
    secret. *)
Lemma run_events_pool_ok evs app g app' g' :
  pool_ok -> app_inv app -> (COLS <= length (word app))%nat ->
  run_events words_txt app g evs = Ok (Waiting app' g') ->
  app_inv app' /\ (COLS <= length (word app'))%nat.
Proof.
  intros Hpool. revert app g. induction evs as [|[k|] evs IH]; intros app g Hinv Hw Hr;
    cbn [run_events] in Hr; [by invc Hr| |by eapply IH].
  destruct (handle_key words_txt app g k) as [[|a g1]|] eqn:Hk; cbn [rbind] in Hr; try done.
  destruct (handle_key_continue_ok _ _ _ _ _ Hpool Hinv Hw Hk). by eapply IH.
Qed.

Lemma run_events_app evs1 evs2 app g :
  run_events words_txt app g (evs1 ++ evs2) =
    rbind (run_events words_txt app g evs1) (fun o =>
      match o with Exited => Ok Exited | Waiting app' g' => run_events words_txt app' g' evs2 end).
Proof.
  revert app g. induction evs1 as [|[k|] evs1 IH]; intros app g; cbn [Datatypes.app run_events]; [done| |apply IH].
  destruct (handle_key words_txt app g k) as [[|app' g']|]; cbn [rbind]; [done|apply IH|done].
Qed.

(** Typing chars on a row with room for them moves the cursor right by
    as many columns and keeps the row, the status and the secret. *)
Lemma run_events_type app g cs :
  app_inv app -> status app = Ongoing -> (N.to_nat (col_of app) + length cs <= COLS)%nat ->
  exists app', run_events words_txt app g (map (fun c => Key (Char c)) cs) = Ok (Waiting app' g) /\
    app_inv app' /\ status app' = Ongoing /\ row_of app' = row_of app /\
    col_of app' = (col_of app + N.of_nat (length cs))%N /\ word app' = word app.
Proof.
  revert app. induction cs as [|c cs IH]; intros app Hinv Hs Hlen.
  - exists app. cbn [map run_events length N.of_nat]. rewrite N.add_0_r.
    split; [done|]. split; [done|]. by repeat split.
  - destruct (on_char_ok app Hinv c) as (row & cell & _ & _ & E); [cbn in Hlen; unfold COLS in Hlen; lia|].
    cbn [map run_events]. unfold handle_key at 1. rewrite Hs, E. cbn [rbind].
    destruct (IH _ (on_char_inv _ _ _ Hinv E)) as (app' & -> & Hinv' & Hs' & Hr' & Hc' & Hw');
      [done | unfold col_of in *; cbn in *; lia |].
    exists app'. split; [done|]. split; [done|]. rewrite Hc'. unfold col_of. cbn.
    repeat split; try done. lia.
Qed.

(** A game started from [App::default] and ended by [Esc] returns, after
    any events whatever. *)
Lemma start_events_esc_exits g evs :
  pool_ok -> start_events words_txt g (evs ++ [Key Esc]) = Ok Exited.
Proof.
  intros Hpool. unfold start_events.
  destruct (app_default_ok words_txt g) as (w & g' & E & Hin). rewrite E. cbn [rbind fst snd].
  destruct (run_events_no_panic evs {| characters := default_characters; position := (0, 0)%N;
                                   status := Ongoing; word := w; message := [] |} g' Hpool) as [o Ho].
  - by eapply app_default_inv.
  - cbn. by eapply (Forall_forall (fun w => COLS <= length w)%nat).
  - rewrite run_events_app, Ho. cbn [rbind]. destruct o as [|app' g'']; [done|].
    cbn. by rewrite handle_key_esc.
Qed.

(** With such a pool, a fresh game satisfies the invariant and has a secret
    of five chars or more. *)
Lemma app_default_pool_ok g app g' :
  pool_ok -> app_default words_txt g = Ok (app, g') -> app_inv app /\ (COLS <= length (word app))%nat.
Proof.
  intros Hpool Hd. split; [by eapply app_default_inv|].
  destruct (app_default_ok words_txt g) as (w & g'' & E & Hin). rewrite E in Hd. invc Hd.
  cbn. by eapply (Forall_forall (fun w => COLS <= length w)%nat).
Qed.
End Runs.

(** ** Which cells carry a colour *)

(** Rows from the cursor's row on are uncoloured, rows before it fully
    coloured. *)
Definition statuses_inv (app : App) : Prop :=
  forall r row, characters app !! r = Some row ->
    ((N.to_nat (row_of app) <= r)%nat -> Forall (fun c => Board.status c = NotGuessed) row) /\
    ((r < N.to_nat (row_of app))%nat -> Forall (fun c => Board.status c <> NotGuessed) row).

(** The number of rows of a board that show a colour. *)
Definition coloured_rows (b : list (list Character)) : nat :=
  length (filter (fun row => Exists (fun c => Board.status c <> NotGuessed) row) b).

Lemma evaluated_row_coloured row w :
  Forall (fun c => Board.status c <> NotGuessed) (evaluated_row row w).
Proof.
  unfold evaluated_row. generalize w at 2 as ws.
  induction row as [|c row IH]; intros [|s ws]; cbn; constructor; [apply value_never_NotGuessed | apply IH].
Qed.

(** Writing an uncoloured row at the cursor's row, cursor row unchanged. *)
Lemma statuses_inv_write app app' row' :
  statuses_inv app -> row_of app' = row_of app ->
  characters app' = <[N.to_nat (row_of app) := row']> (characters app) ->
  Forall (fun c => Board.status c = NotGuessed) row' -> statuses_inv app'.
Proof.
  intros Hs Hr Hc Hrow' r row Hl. rewrite Hc, list_lookup_insert_Some in Hl. rewrite Hr.
  destruct Hl as [(<- & <- & _)|(_ & Hl)]; [split; [done | lia] | by apply Hs].
Qed.

(** Colouring the cursor's row and moving to the next one. *)
Lemma statuses_inv_advance app app' row w :
  statuses_inv app ->
  N.to_nat (row_of app') = S (N.to_nat (row_of app)) ->
  characters app' = <[N.to_nat (row_of app) := evaluated_row row w]> (characters app) ->
  statuses_inv app'.
Proof.
  intros Hs Hr Hc r row' Hl. rewrite Hc, list_lookup_insert_Some in Hl. rewrite Hr.
  destruct Hl as [(<- & <- & _)|(Hne & Hl)]; [split; [lia | intros _; apply evaluated_row_coloured]|].
  destruct (Hs r row' Hl) as [H1 H2]. split; intros; [apply H1 | apply H2]; lia.
Qed.

Lemma statuses_inv_default app : characters app = default_characters -> row_of app = 0%N -> statuses_inv app.
Proof.
  intros Hc Hr r row Hl. rewrite Hc in Hl. apply lookup_replicate in Hl as [-> _].
  split; [intros _; by apply Forall_replicate | rewrite Hr; lia].
Qed.

Lemma uncoloured_cell_update app row cell i x :
  statuses_inv app -> characters app !! N.to_nat (row_of app) = Some row -> row !! i = Some cell ->
  Board.status x = Board.status cell ->
  Forall (fun c => Board.status c = NotGuessed) (<[i := x]> row).
Proof.
  intros Hs Hrow Hcell Hx. destruct (Hs _ _ Hrow) as [H1 _].
  pose proof (H1 (le_n _)) as Hall. apply Forall_insert; [done|].
  rewrite Hx. by eapply (Forall_lookup_1 _ _ _ _ Hall).
Qed.

Section Colours.
Context {G : Type} `{Rng G}.
Variable words_txt : list ascii.

Lemma on_char_statuses app ch app' :
  app_inv app -> statuses_inv app -> on_char app ch = Ok app' -> statuses_inv app'.
Proof.
  intros Hinv Hs Hk. destruct (N.ltb_spec (col_of app) 5) as [Hc|Hc].
  - destruct (on_char_ok app Hinv ch Hc) as (row & cell & Hrow & Hcell & E). rewrite E in Hk. invc Hk.
    eapply statuses_inv_write; [done | done | done |]. by eapply uncoloured_cell_update.
  - unfold on_char in Hk. destruct (N.ltb_spec (col_of app) 5); [lia|]. by invc Hk.
Qed.

Lemma on_backspace_statuses app app' :
  app_inv app -> statuses_inv app -> on_backspace app = Ok app' -> statuses_inv app'.
Proof.
  intros Hinv Hs Hk. destruct (N.leb_spec 1 (col_of app)) as [Hc|Hc].
  - destruct (on_backspace_ok app Hinv Hc) as (row & cell & Hrow & Hcell & E). rewrite E in Hk. invc Hk.
    eapply statuses_inv_write; [done | done | done |]. by eapply uncoloured_cell_update.
  - unfold on_backspace in Hk. destruct (N.leb_spec 1 (col_of app)); [lia|]. by invc Hk.
Qed.

Lemma on_enter_statuses app app' :
  app_inv app -> statuses_inv app -> on_enter app = Ok app' -> statuses_inv app'.
Proof.
  intros Hinv Hs Hk. destruct (decide (col_of app = 5%N)) as [Hc|Hc].
  - destruct (inv_current_row app Hinv) as (row & Hrow & _).
    destruct (decide (str_to_lowercase (row_string row) = str_to_lowercase (word app))) as [Heq|Hne].
    { rewrite (on_enter_win app row) in Hk by assumption. by invc Hk. }
    destruct (decide (row_of app = 5%N)) as [Hr|Hr].
    { rewrite (on_enter_lost app row) in Hk by assumption. by invc Hk. }
    destruct (decide (COLS <= length (word app))%nat) as [Hw|Hw].
    + rewrite (on_enter_next app row) in Hk by (try assumption; destruct Hinv as (_ & ? & _); lia).
      invc Hk. eapply statuses_inv_advance; [done | cbn; destruct Hinv as (_ & ? & _); unfold row_of in *; lia | done].
    + rewrite (on_enter_short_word app row) in Hk by (try assumption; destruct Hinv as (_ & ? & _); lia).
      discriminate.
  - unfold on_enter in Hk. destruct (N.leb_spec 5 (col_of app)); [destruct Hinv as (_ & _ & ?); lia|].
    by invc Hk.
Qed.

Lemma handle_key_statuses app g k app' g' :
  app_inv app -> statuses_inv app -> handle_key words_txt app g k = Ok (Continue app' g') ->
  statuses_inv app'.
Proof.
  intros Hinv Hs Hk. unfold handle_key in Hk.
  destruct (status app), k; cbn [rbind] in Hk; try (by invc Hk);
    try (destruct (app_default_ok words_txt g) as (w & g'' & E & _);
         rewrite E in Hk; cbn [rbind] in Hk; invc Hk; by apply statuses_inv_default).
  - destruct (on_backspace app) eqn:E; cbn [rbind] in Hk; invc Hk. by eapply on_backspace_statuses.
  - destruct (on_enter app) eqn:E; cbn [rbind] in Hk; invc Hk. by eapply on_enter_statuses.
  - destruct (on_char app c) eqn:E; cbn [rbind] in Hk; invc Hk. by eapply on_char_statuses.
Qed.

(** Cells get a colour only when their row is submitted. *)
Lemma reachable_statuses app g : reachable words_txt app g -> statuses_inv app.
Proof.
  intros Hr. induction Hr as [g0 app g E | app g k app' g' Hr IH E].
  - destruct (app_default_ok words_txt g0) as (w & g'' & E' & _). rewrite E' in E. invc E.
    by apply statuses_inv_default.
  - eapply handle_key_statuses; [by eapply reachable_app_inv | done | done].
Qed.

(** Under both invariants the rows that show a colour are the rows above
    the cursor. *)
Lemma coloured_rows_inv app :
  app_inv app -> statuses_inv app -> coloured_rows (characters app) = N.to_nat (row_of app).
Proof.
  intros ((Hlen & Hrows) & Hr & _) Hst. apply length_filter_prefix; [rewrite Hlen; unfold ROWS; lia|].
  intros r row Hrow. destruct (Hst r row Hrow) as [Hunc Hcol].
  assert (Hl : length row = COLS) by (by eapply (Forall_lookup_1 (fun row => length row = COLS))).
  split.
  - intros Hlt. destruct row as [|c row]; [unfold COLS in Hl; discriminate|].
    constructor. exact (proj1 (Forall_cons_1 _ _ _ (Hcol Hlt))).
  - intros Hge Hex. apply Exists_exists in Hex as (c & Hc & Hne).
    apply Hne. by eapply Forall_forall in Hc; [|exact (Hunc Hge)].
Qed.

(** Enter ends a game lost only on the last row. *)
Lemma on_enter_lost_row app app' :
  app_inv app -> on_enter app = Ok app' -> status app' = Lost -> status app = Lost \/ row_of app' = 5%N.
Proof.
  intros (_ & Hr & _) He Hl. unfold on_enter in He. rbind_inv He; invc He; cbn in *; try discriminate; try (by left).
  right. repeat match goal with Hb : (_ <=? _)%N = true |- _ => apply N.leb_le in Hb end.
  unfold row_of in *. cbn. lia.
Qed.

(** A lost game is on its last row. *)
Lemma reachable_lost_row app g : reachable words_txt app g -> status app = Lost -> row_of app = 5%N.
Proof.
  intros Hr. induction Hr as [g0 app g E | app g k app' g' Hr IH E]; intros Hl.
  - destruct (app_default_ok words_txt g0) as (w & g'' & E' & _). rewrite E' in E. by invc E.
  - unfold handle_key in E. destruct (status app) eqn:Hs; destruct k; cbn [rbind] in E; try discriminate;
      try (invc E; first [congruence | by apply IH]);
      try (destruct (app_default_ok words_txt g) as (w & g'' & E' & _); rewrite E' in E; by invc E);
      match type of E with context [rbind ?m _] => destruct m eqn:Ek; cbn [rbind] in E; invc E end;
      first [ apply on_backspace_row in Ek as [_ ?]; congruence
            | apply on_char_row in Ek as [_ ?]; congruence
            | destruct (on_enter_lost_row app _ (reachable_app_inv _ _ _ Hr) Ek Hl); congruence ].
Qed.

(** The events lead from a reachable state to reachable states. *)
Lemma run_events_reachable app g evs app' g' :
  reachable words_txt app g -> run_events words_txt app g evs = Ok (Waiting app' g') ->
  reachable words_txt app' g'.
Proof.
  revert app g. induction evs as [|[k|] evs IH]; intros app g Hr Hrun; cbn [run_events] in Hrun.
  - by invc Hrun.
  - destruct (handle_key words_txt app g k) as [[|a g1]|] eqn:Hk; cbn [rbind] in Hrun; try done.
    eapply IH; [eapply reachable_key; eauto | exact Hrun].
  - by eapply IH.
Qed.

(** C2: In every state the loop can reach, the grid keeps its 6 x 5 shape,
    the cursor stays within [row <= 5] and [col <= 5], and cells get a
    colour only when their row is submitted: the rows before the cursor's
    row are coloured in every cell, the others in none (the winning row and
    the last row of a lost game stay uncoloured). *)
Theorem reachable_inv app g : reachable words_txt app g -> app_inv app /\ statuses_inv app.
Proof. intros Hr. split; [by eapply reachable_app_inv | by eapply reachable_statuses]. Qed.
End Colours.

(** The number the [Won] screen shows, [app.position[0] + 1] (line 239). *)
Definition won_guesses (app : App) : N := row_of app + 1.

Section WinLoss.
Context {G : Type} `{Rng G}.
Variable words_txt : list ascii.

(** C18: Submitting a full row equal to the word up to case wins; the cursor
    stays on the row, so the [Won] screen counts [row + 1] guesses. *)
Theorem enter_wins app row g :
  app_inv app -> status app = Ongoing -> col_of app = 5%N ->
  characters app !! N.to_nat (row_of app) = Some row ->
  str_to_lowercase (row_string row) = str_to_lowercase (word app) ->
  exists app', handle_key words_txt app g Enter = Ok (Continue app' g) /\
    status app' = Won /\ won_guesses app' = (row_of app + 1)%N /\ message app' = jeromes.
Proof.
  intros Hinv Hs Hc Hrow Heq. unfold handle_key. rewrite Hs.
  rewrite (on_enter_win app row) by assumption. cbn [rbind]. eexists. by repeat split.
Qed.

(** C21: A word whose length is not five can never be won: a full row has
    five chars and lowercasing keeps lengths. *)
Theorem enter_never_wins_wrong_length app g app' g' :
  app_inv app -> status app = Ongoing -> length (word app) <> COLS ->
  handle_key words_txt app g Enter = Ok (Continue app' g') -> status app' <> Won.
Proof.
  intros Hinv Hs Hw Hk. unfold handle_key in Hk. rewrite Hs in Hk.
  destruct (on_enter app) as [a|] eqn:E; cbn [rbind] in Hk; invc Hk.
  destruct (decide (col_of app = 5%N)) as [Hc|Hc].
  - destruct (inv_current_row app Hinv) as (row & Hrow & Hlen).
    rewrite (on_enter_full app row) in E by assumption.
    rewrite bool_decide_eq_false_2 in E.
    + destruct (N.leb_spec 5 (row_of app)); [by invc E|].
      destruct (eval_row _ _ _); cbn [rbind] in E; [|done].
      rewrite usize_add_ok in E by (unfold usize_max; lia). invc E. cbn. by rewrite Hs.
    + intros Heq. apply (f_equal length) in Heq.
      autorewrite with rs_rw in Heq. congruence.
  - unfold on_enter in E. destruct (N.leb_spec 5 (col_of app)); [destruct Hinv as (_ & _ & ?); lia|].
    invc E. by rewrite Hs.
Qed.

(** The guesses left in the current game: none once it is over. *)
Definition guesses_left (app : App) : nat :=
  match status app with
  | Ongoing => ROWS - N.to_nat (row_of app)
  | _ => 0
  end.

Lemma guesses_left_same app app' :
  row_of app' = row_of app /\ status app' = status app -> guesses_left app' = guesses_left app.
Proof. intros [Hr Hs]. unfold guesses_left. by rewrite Hr, Hs. Qed.

(** C16: A game ends after at most six submissions.  [guesses_left] is a
    variant of the loop in the sense of a [for] loop: in a game that is on
    it lies in [1 .. 6], before and after any key; no key raises it; and
    every submission of a full row lowers it (the game moves to the next
    row, is won or is lost), so a seventh submission never happens. *)
Theorem handle_key_guesses_left app g k app' g' :
  app_inv app -> status app = Ongoing -> handle_key words_txt app g k = Ok (Continue app' g') ->
  (0 < guesses_left app <= ROWS)%nat /\
  (status app' = Ongoing -> 0 < guesses_left app')%nat /\
  if bool_decide (k = Enter /\ col_of app = 5%N) then (guesses_left app' < guesses_left app)%nat
  else guesses_left app' = guesses_left app.
Proof.
  intros Hinv Hs Hk. pose proof Hinv as (_ & Hr & Hc).
  assert (Hpos : (0 < guesses_left app <= ROWS)%nat) by (unfold guesses_left; rewrite Hs; unfold ROWS; lia).
  enough (if bool_decide (k = Enter /\ col_of app = 5%N)
          then (guesses_left app' < guesses_left app /\ (status app' = Ongoing -> 0 < guesses_left app'))%nat
          else guesses_left app' = guesses_left app) as Hv.
  { split; [done|]. case_bool_decide; [tauto | rewrite Hv; split; [intros _; lia | done]]. }
  unfold handle_key in Hk. rewrite Hs in Hk.
  destruct k; cbn [rbind] in Hk; try discriminate;
    [destruct (on_backspace app) eqn:E | destruct (on_enter app) eqn:E | destruct (on_char app c) eqn:E | ];
    cbn [rbind] in Hk; invc Hk;
    try (rewrite bool_decide_eq_false_2 by (intros [? ?]; discriminate);
         first [by apply guesses_left_same, (on_backspace_row app) | by apply guesses_left_same, (on_char_row app c) | done]).
  destruct (decide (col_of app = 5%N)) as [Hc5|Hc5].
  - rewrite bool_decide_eq_true_2 by done.
    destruct (inv_current_row app Hinv) as (row & Hrow & _).
    rewrite (on_enter_full app row) in E by assumption. unfold guesses_left. rewrite Hs.
    case_bool_decide; [invc E; cbn; unfold ROWS; split; [lia | intros Ho; discriminate Ho]|].
    destruct (N.leb_spec 5 (row_of app)); [invc E; cbn; unfold ROWS; split; [lia | intros Ho; discriminate Ho]|].
    destruct (eval_row _ _ _); cbn [rbind] in E; [|done].
    rewrite usize_add_ok in E by (unfold usize_max; lia). invc E. rewrite Hs. unfold row_of in *. cbn. unfold ROWS.
    split; [lia | intros _; lia].
  - rewrite bool_decide_eq_false_2 by (intros [_ ?]; done).
    unfold on_enter in E. destruct (N.leb_spec 5 (col_of app)); [lia|]. by invc E.
Qed.
End WinLoss.

(** ** Key traces *)

(** The keys that type a word and submit it. *)
Definition typed (s : string) : list Decoded := map (fun c => Key (Char c)) (lit s) ++ [Key Enter].

(** ** Witnesses *)

Lemma enter_short_word_panics_witness :
  handle_key (lit "")
    {| characters := default_characters; position := (0%N, 5%N); status := Ongoing;
       word := []; message := [] |} (0%N : Lcg64) Enter = Panic IndexOutOfBounds.
Proof.
  apply enter_short_word_panics;
    [decide_inv | reflexivity | reflexivity | eval_arith | eval_arith].
Defined.

Lemma reachable_inv_witness :
  app_inv {| characters := <[0%nat := <[0%nat := {| character := "A"%char; Board.status := NotGuessed |}]>
                                        (replicate COLS blank)]> default_characters;
             position := (0%N, 1%N); status := Ongoing; word := lit "crane"; message := [] |} /\
  statuses_inv {| characters := <[0%nat := <[0%nat := {| character := "A"%char; Board.status := NotGuessed |}]>
                                        (replicate COLS blank)]> default_characters;
             position := (0%N, 1%N); status := Ongoing; word := lit "crane"; message := [] |}.
Proof.
  apply (reachable_inv (lit "crane") _ (lcg_next 0 : Lcg64)).
  apply (reachable_key _ {| characters := default_characters; position := (0%N, 0%N); status := Ongoing;
                            word := lit "crane"; message := [] |} (lcg_next 0 : Lcg64) (Char "a")).
  - apply (reachable_start _ (0%N : Lcg64)). vm_compute. reflexivity.
  - vm_compute. reflexivity.
Defined.

Lemma enter_wins_witness :
  exists app', handle_key (lit "crane")
    {| characters := <[0%nat := map (fun c => {| character := c; Board.status := NotGuessed |}) (lit "CRANE")]>
                       default_characters;
       position := (0%N, 5%N); status := Ongoing; word := lit "crane"; message := [] |}
    (0%N : Lcg64) Enter = Ok (Continue app' (0%N : Lcg64)) /\
    status app' = Won /\ won_guesses app' = 1%N /\ message app' = jeromes.
Proof.
  destruct (enter_wins (lit "crane")
    {| characters := <[0%nat := map (fun c => {| character := c; Board.status := NotGuessed |}) (lit "CRANE")]>
                       default_characters;
       position := (0%N, 5%N); status := Ongoing; word := lit "crane"; message := [] |}
    (map (fun c => {| character := c; Board.status := NotGuessed |}) (lit "CRANE"))
    (0%N : Lcg64) ltac:(decide_inv) eq_refl eq_refl eq_refl eq_refl) as (a & Hk & Hs & Hg & Hm).
  exists a. split; [exact Hk|]. split; [exact Hs|]. split; [rewrite Hg; reflexivity | exact Hm].
Defined.

Lemma enter_never_wins_wrong_length_witness :
  status {| characters := <[0%nat := evaluated_row
                                       (map (fun c => {| character := c; Board.status := NotGuessed |}) (lit "CRANE"))
                                       (lit "cranes")]> default_characters;
            position := (1%N, 0%N); status := Ongoing; word := lit "cranes"; message := [] |} <> Won.
Proof.
  apply (enter_never_wins_wrong_length (lit "cranes")
    {| characters := <[0%nat := map (fun c => {| character := c; Board.status := NotGuessed |}) (lit "CRANE")]>
                       default_characters;
       position := (0%N, 5%N); status := Ongoing; word := lit "cranes"; message := [] |}
    (0%N : Lcg64) _ (0%N : Lcg64)).
  - decide_inv.
  - reflexivity.
  - eval_arith.
  - vm_compute. reflexivity.
Defined.

Lemma handle_key_guesses_left_witness :
  (0 < guesses_left {| characters := default_characters; position := (4%N, 5%N); status := Ongoing;
                       word := lit "crane"; message := [] |} <= ROWS)%nat /\
  (status {| characters := <[4%nat := evaluated_row (replicate COLS blank) (lit "crane")]> default_characters;
             position := (5%N, 0%N); status := Ongoing; word := lit "crane"; message := [] |} = Ongoing ->
   0 < guesses_left {| characters := <[4%nat := evaluated_row (replicate COLS blank) (lit "crane")]> default_characters;
                       position := (5%N, 0%N); status := Ongoing; word := lit "crane"; message := [] |})%nat /\
  (guesses_left {| characters := <[4%nat := evaluated_row (replicate COLS blank) (lit "crane")]> default_characters;
                   position := (5%N, 0%N); status := Ongoing; word := lit "crane"; message := [] |} <
   guesses_left {| characters := default_characters; position := (4%N, 5%N); status := Ongoing;
                   word := lit "crane"; message := [] |})%nat.
Proof.
  apply (handle_key_guesses_left (lit "crane")
           {| characters := default_characters; position := (4%N, 5%N); status := Ongoing;
              word := lit "crane"; message := [] |} (0%N : Lcg64) Enter _ (0%N : Lcg64));
    [decide_inv | reflexivity | vm_compute; reflexivity].
Defined.

Lemma boundary_keys_noop_witness :
  ((5 <= col_of (mkApp default_characters (2%N, 5%N) Ongoing (lit "crane") []))%N ->
   forall c, handle_key (lit "crane") (mkApp default_characters (2%N, 5%N) Ongoing (lit "crane") [])
               (0%N : Lcg64) (Char c) =
             Ok (Continue (mkApp default_characters (2%N, 5%N) Ongoing (lit "crane") []) (0%N : Lcg64))) /\
  (col_of (mkApp default_characters (2%N, 5%N) Ongoing (lit "crane") []) = 0%N ->
   handle_key (lit "crane") (mkApp default_characters (2%N, 5%N) Ongoing (lit "crane") []) (0%N : Lcg64) Backspace =
     Ok (Continue (mkApp default_characters (2%N, 5%N) Ongoing (lit "crane") []) (0%N : Lcg64))) /\
  ((col_of (mkApp default_characters (2%N, 5%N) Ongoing (lit "crane") []) < 5)%N ->
   handle_key (lit "crane") (mkApp default_characters (2%N, 5%N) Ongoing (lit "crane") []) (0%N : Lcg64) Enter =
     Ok (Continue (mkApp default_characters (2%N, 5%N) Ongoing (lit "crane") []) (0%N : Lcg64))).
Proof. apply boundary_keys_noop. reflexivity. Defined.

Lemma finished_game_keys_witness :
  exists w g', handle_key (lit "crane
slate")
    {| characters := default_characters; position := (3%N, 5%N); status := Won;
       word := lit "crane"; message := jeromes |} (0%N : Lcg64) Enter =
    Ok (Continue {| characters := default_characters; position := (0, 0)%N;
                    status := Ongoing; word := w; message := [] |} g') /\
    w ∈ load_words (lit "crane
slate").
Proof.
  apply (finished_game_keys (lit "crane
slate") {| characters := default_characters; position := (3%N, 5%N); status := Won;
           word := lit "crane"; message := jeromes |} (0%N : Lcg64) Enter).
  discriminate.
Defined.
