(* ===== verification/GameSpec.v ===== *)
(** * GameSpec: the game as the specification describes it, and refinement

    An abstract machine for the game session of the specification's
    section 4.4: the evaluated guesses so far, the letters typed on the
    current attempt, a status [AOngoing | AWon attempts | ALost] and the
    secret.  [abs] reads an [App] as such a state, and
    [handle_key_refines] shows that every key the loop handles (main.rs,
    lines 90-144) moves [abs] the way [astep] says.  The letters are judged
    with the code's [value]: [Compare] relates it to the specification's
    comparison separately. *)
From S2P Require Import Prelude RustChar Rng WordPool Compare Board Game.

Inductive AStatus :=
  | AOngoing
  | AWon (attempts : nat)
  | ALost.

Record AGame := mkAGame {
  guesses : list (list (ascii * CharacterStatus));
  typed_so_far : list ascii;
  astatus : AStatus;
  secret : list ascii
}.

Definition agame_init (w : list ascii) : AGame :=
  {| guesses := []; typed_so_far := []; astatus := AOngoing; secret := w |}.

(** The colours of a submitted guess, letter by letter. *)
Definition judge (g w : list ascii) : list (ascii * CharacterStatus) :=
  zip_with (fun c s => (c, value c w s)) g w.

(** One key of the specification's machine; [None] is leaving the game,
    [fresh] the secret a reset would draw. *)
Definition astep (a : AGame) (k : KeyCode) (fresh : list ascii) : option AGame :=
  match astatus a with
  | AWon _ | ALost =>
      match k with
      | Esc => None
      | Enter => Some (agame_init fresh)
      | _ => Some a
      end
  | AOngoing =>
      match k with
      | Esc => None
      | Backspace =>
          Some {| guesses := guesses a; typed_so_far := removelast (typed_so_far a);
                  astatus := AOngoing; secret := secret a |}
      | Char c =>
          if decide (length (typed_so_far a) < COLS)%nat then
            Some {| guesses := guesses a; typed_so_far := typed_so_far a ++ [ascii_upper c];
                    astatus := AOngoing; secret := secret a |}
          else Some a
      | Enter =>
          if decide (length (typed_so_far a) = COLS) then
            if decide (str_to_lowercase (typed_so_far a) = str_to_lowercase (secret a)) then
              Some {| guesses := guesses a; typed_so_far := typed_so_far a;
                      astatus := AWon (S (length (guesses a))); secret := secret a |}
            else if decide (ROWS <= S (length (guesses a)))%nat then
              Some {| guesses := guesses a; typed_so_far := typed_so_far a;
                      astatus := ALost; secret := secret a |}
            else
              Some {| guesses := guesses a ++ [judge (typed_so_far a) (secret a)];
                      typed_so_far := []; astatus := AOngoing; secret := secret a |}
          else Some a
      | OtherKey => Some a
      end
  end.

(** ** Reading an [App] as a state of the specification *)

Definition cell_view (c : Character) : ascii * CharacterStatus := (character c, Board.status c).

Definition current_row (app : App) : list Character :=
  default [] (characters app !! N.to_nat (row_of app)).

Definition abs (app : App) : AGame :=
  {| guesses := map (map cell_view) (take (N.to_nat (row_of app)) (characters app));
     typed_so_far := take (N.to_nat (col_of app)) (map character (current_row app));
     astatus := match status app with
                | Ongoing => AOngoing
                | Won => AWon (S (N.to_nat (row_of app)))
                | Lost => ALost
                end;
     secret := word app |}.

(** ** List facts the simulation uses *)

Lemma take_S_insert {A} (l : list A) r x :
  (r < length l)%nat -> take (S r) (<[r := x]> l) = take r l ++ [x].
Proof.
  intros Hr. rewrite (take_S_r _ _ x).
  - by rewrite take_insert, decide_False by lia.
  - by apply list_lookup_insert_eq.
Qed.

Lemma take_insert_ge {A} (l : list A) n i x : (n <= i)%nat -> take n (<[i := x]> l) = take n l.
Proof. intros Hi. by rewrite take_insert, decide_False by lia. Qed.

Lemma removelast_take {A} (l : list A) n :
  (n <= length l)%nat -> removelast (take n l) = take (n - 1) l.
Proof.
  intros Hn. destruct n as [|n]; [done|].
  destruct (lookup_lt_is_Some_2 l n) as [x Hx]; [lia|].
  rewrite (take_S_r _ _ x Hx), removelast_last. f_equal. lia.
Qed.

Lemma map_insert {A B} (f : A -> B) (l : list A) i x :
  map f (<[i := x]> l) = <[i := f x]> (map f l).
Proof.
  revert i. induction l as [|y l IH]; intros [|i]; cbn; [done..|]. by rewrite IH.
Qed.

Lemma map_cell_view_evaluated row w :
  map cell_view (evaluated_row row w) = judge (map character row) w.
Proof.
  unfold evaluated_row, judge. generalize w at 2 4 as ws.
  induction row as [|c row IH]; intros [|s ws]; cbn; [done..|]. by rewrite IH.
Qed.

(** ** Each arm moves [abs] as [astep] says *)

Section Simulation.
Variable app : App.
Hypothesis Hinv : app_inv app.

Lemma abs_guesses_length : length (guesses (abs app)) = N.to_nat (row_of app).
Proof.
  destruct Hinv as ((Hl & _) & Hr & _). cbn. rewrite length_map, length_take, Hl. unfold ROWS. lia.
Qed.

Lemma abs_typed_length : length (typed_so_far (abs app)) = N.to_nat (col_of app).
Proof.
  destruct (inv_current_row app Hinv) as (row & Hrow & Hlen). destruct Hinv as (_ & _ & Hc).
  cbn. unfold current_row. rewrite Hrow. cbn. rewrite length_take, length_map, Hlen. unfold COLS. lia.
Qed.

Lemma abs_on_char ch app' :
  (col_of app < 5)%N -> on_char app ch = Ok app' ->
  abs app' = {| guesses := guesses (abs app); typed_so_far := typed_so_far (abs app) ++ [ascii_upper ch];
                astatus := astatus (abs app); secret := secret (abs app) |}.
Proof.
  intros Hc Hk. destruct (on_char_ok app Hinv ch Hc) as (row & cell & Hrow & Hcell & E).
  rewrite E in Hk. invc Hk. pose proof (lookup_lt_Some _ _ _ Hrow) as Hr.
  pose proof (lookup_lt_Some _ _ _ Hcell) as Hcl.
  unfold abs, current_row, row_of, col_of in *. cbn in *.
  rewrite list_lookup_insert_eq by done. cbn. f_equal.
  - by rewrite take_insert_ge by lia.
  - replace (N.to_nat ((position app).2 + 1)) with (S (N.to_nat (position app).2)) by lia.
    rewrite Hrow. cbn. rewrite map_insert, take_S_insert by (rewrite length_map; lia). done.
Qed.

Lemma abs_on_backspace app' :
  (1 <= col_of app)%N -> on_backspace app = Ok app' ->
  abs app' = {| guesses := guesses (abs app); typed_so_far := removelast (typed_so_far (abs app));
                astatus := astatus (abs app); secret := secret (abs app) |}.
Proof.
  intros Hc Hk. destruct (on_backspace_ok app Hinv Hc) as (row & cell & Hrow & Hcell & E).
  rewrite E in Hk. invc Hk. pose proof (lookup_lt_Some _ _ _ Hrow) as Hr.
  pose proof (lookup_lt_Some _ _ _ Hcell) as Hcl.
  unfold abs, current_row, row_of, col_of in *. cbn in *.
  rewrite list_lookup_insert_eq by done. cbn. f_equal.
  - by rewrite take_insert_ge by lia.
  - rewrite Hrow. cbn. rewrite map_insert, take_insert_ge by lia.
    rewrite removelast_take by (rewrite length_map; lia). f_equal. lia.
Qed.
Lemma abs_typed_full row :
  col_of app = 5%N -> characters app !! N.to_nat (row_of app) = Some row ->
  typed_so_far (abs app) = row_string row.
Proof.
  intros Hc Hrow. destruct Hinv as (Hwf & _). pose proof (board_wf_row _ _ _ Hwf Hrow) as Hlen.
  cbn. unfold current_row. rewrite Hrow, Hc. cbn. rewrite row_string_map, take_ge; [done|].
  rewrite length_map, Hlen. done.
Qed.

Lemma abs_on_enter app' :
  status app = Ongoing -> on_enter app = Ok app' -> astep (abs app) Enter (word app') = Some (abs app').
Proof.
  intros Hs Hk. pose proof Hinv as (Hwf & Hr & Hcol).
  assert (Ha : astatus (abs app) = AOngoing) by (cbn; by rewrite Hs).
  unfold astep. rewrite Ha.
  destruct (decide (col_of app = 5%N)) as [Hc|Hc].
  - destruct (inv_current_row app Hinv) as (row & Hrow & Hlen).
    pose proof (abs_typed_full row Hc Hrow) as Htyped.
    rewrite (on_enter_full app row) in Hk by assumption.
    rewrite decide_True by (by rewrite abs_typed_length, Hc).
    case_bool_decide as Heq.
    + invc Hk. rewrite decide_True by (rewrite Htyped; exact Heq).
      rewrite abs_guesses_length. reflexivity.
    + rewrite decide_False by (rewrite Htyped; exact Heq).
      destruct (N.leb_spec 5 (row_of app)) as [Hr5|Hr5].
      * invc Hk. rewrite decide_True by (rewrite abs_guesses_length; unfold ROWS; lia). reflexivity.
      * rewrite decide_False by (rewrite abs_guesses_length; unfold ROWS; lia).
        destruct (decide (COLS <= length (word app))%nat) as [Hw|Hw].
        2: { rewrite eval_row_panic in Hk; [done | done | unfold ROWS; lia | lia]. }
        destruct (eval_row_ok (characters app) (row_of app) (word app)) as (row' & Hrow' & E);
          [done | unfold ROWS; lia | done |].
        rewrite E in Hk. rewrite Hrow in Hrow'. invc Hrow'. cbn [rbind] in Hk.
        rewrite usize_add_ok in Hk by (unfold usize_max; lia). invc Hk.
        rewrite Htyped, row_string_map. unfold abs, row_of, col_of in *. cbn -[evaluated_row judge]. rewrite Hs. f_equal. f_equal.
        replace (N.to_nat ((position app).1 + 1)) with (S (N.to_nat (position app).1)) by lia.
        rewrite take_S_insert by (apply lookup_lt_Some in Hrow; lia).
        rewrite map_app. cbn [map]. by rewrite map_cell_view_evaluated.
  - unfold on_enter in Hk. destruct (N.leb_spec 5 (col_of app)); [lia|]. injection Hk as <-.
    rewrite decide_False by (rewrite abs_typed_length; unfold COLS; lia). reflexivity.
Qed.
End Simulation.

(** ** Refinement *)

Section Refinement.
Context {G : Type} `{Rng G}.
Variable words_txt : list ascii.

Lemma abs_app_default g app g' :
  app_default words_txt g = Ok (app, g') -> abs app = agame_init (word app).
Proof.
  destruct (app_default_ok words_txt g) as (w & g'' & E & _). rewrite E. intros Heq. by invc Heq.
Qed.

(** A key the loop handles without leaving moves the abstraction of the
    state as the specification's machine does (a reset draws the new
    state's word). *)
Lemma handle_key_continue_sim app g k app' g' :
  app_inv app -> handle_key words_txt app g k = Ok (Continue app' g') ->
  astep (abs app) k (word app') = Some (abs app').
Proof.
  intros Hinv Hk. unfold handle_key in Hk.
  destruct (status app) eqn:Hs, k; cbn [rbind] in Hk;
    try (invc Hk; unfold astep; cbn [abs astatus]; rewrite Hs; reflexivity);
    try (destruct (app_default words_txt g) as [[a g'']|] eqn:E; cbn [rbind] in Hk; invc Hk;
         unfold astep; cbn [abs astatus]; rewrite Hs; cbn [fst]; by rewrite (abs_app_default _ _ _ E)).
  - destruct (on_backspace app) as [a|] eqn:E; cbn [rbind] in Hk; [injection Hk as <- <- | discriminate].
    destruct (N.leb_spec 1 (col_of app)) as [Hc|Hc].
    + rewrite (abs_on_backspace app Hinv a Hc E). unfold astep. cbn [abs astatus]. by rewrite Hs.
    + unfold on_backspace in E. destruct (N.leb_spec 1 (col_of app)); [lia|]. invc E.
      unfold astep. cbn [astatus abs]. rewrite Hs. f_equal. unfold abs. cbn. rewrite Hs.
      replace (N.to_nat (col_of a)) with 0%nat by lia. done.
  - destruct (on_enter app) as [a|] eqn:E; cbn [rbind] in Hk; [injection Hk as <- <- | discriminate]. by apply abs_on_enter.
  - destruct (on_char app c) as [a|] eqn:E; cbn [rbind] in Hk; [injection Hk as <- <- | discriminate].
    unfold astep. cbn [abs astatus]. rewrite Hs.
    destruct (N.ltb_spec (col_of app) 5) as [Hc|Hc].
    + rewrite (abs_on_char app Hinv c a Hc E).
      rewrite decide_True by (rewrite abs_typed_length by done; unfold COLS; lia). cbn. by rewrite Hs.
    + unfold on_char in E. destruct (N.ltb_spec (col_of app) 5); [lia|]. invc E.
      rewrite decide_False by (rewrite abs_typed_length by done; destruct Hinv as (_ & _ & ?); unfold COLS; lia).
      done.
Qed.

(** [Esc] is the only key that leaves the loop, in the code as in the
    specification. *)
Lemma handle_key_exit_sim app g k w :
  handle_key words_txt app g k = Ok Exit -> k = Esc /\ astep (abs app) k w = None.
Proof.
  unfold handle_key. intros Hk.
  destruct (status app) eqn:Hs, k; cbn [rbind] in Hk; try discriminate;
    try (destruct (app_default words_txt g); discriminate);
    try (destruct (on_backspace app); discriminate);
    try (destruct (on_enter app); discriminate);
    try (destruct (on_char app c); discriminate);
    (split; [done | unfold astep; cbn [abs astatus]; by rewrite Hs]).
Qed.

(** C3: The loop body refines the specification's machine: a key that
    leaves the loop is [Esc], which leaves the specification's machine
    too, and a key the loop goes on after moves the abstraction of the
    state as the specification's machine does (a reset draws the new
    state's word). *)
Theorem handle_key_refines app g k c :
  app_inv app -> handle_key words_txt app g k = Ok c ->
  match c with
  | Exit => k = Esc /\ forall w, astep (abs app) k w = None
  | Continue app' _ => astep (abs app) k (word app') = Some (abs app')
  end.
Proof.
  intros Hinv Hk. destruct c as [|app' g'].
  - split; [by apply (handle_key_exit_sim app g k []) | intros w; by eapply handle_key_exit_sim].
  - by eapply handle_key_continue_sim.
Qed.
End Refinement.

(** ** Runs without leaving or restarting *)

(** [Esc], and [Enter] on a finished game, leave this run: the first ends
    the loop, the second draws a fresh secret. *)
Definition leaves (a : AGame) (k : KeyCode) : bool :=
  match k, astatus a with
  | Esc, _ => true
  | Enter, AWon _ | Enter, ALost => true
  | _, _ => false
  end.

Fixpoint arun (a : AGame) (ks : list KeyCode) : option AGame :=
  match ks with
  | [] => Some a
  | k :: ks' =>
      if leaves a k then None
      else match astep a k [] with
           | Some a' => arun a' ks'
           | None => None
           end
  end.

(** The keys of one attempt: its letters, then Enter. *)
Definition guess_keys (gs : list ascii) : list KeyCode := map Char gs ++ [Enter].

Lemma astep_stays a k w w' a' :
  leaves a k = false -> astep a k w = Some a' -> astep a k w' = Some a' /\ secret a' = secret a.
Proof.
  unfold leaves, astep. intros Hl Hs.
  destruct (astatus a), k; try discriminate; repeat case_decide; invc Hs; done.
Qed.

Lemma arun_app a ks1 ks2 :
  arun a (ks1 ++ ks2) = match arun a ks1 with Some a' => arun a' ks2 | None => None end.
Proof.
  revert a. induction ks1 as [|k ks1 IH]; intros a; [done|]. cbn.
  destruct (leaves a k); [done|]. destruct (astep a k []); [apply IH|done].
Qed.

Lemma arun_type a cs :
  astatus a = AOngoing -> (length (typed_so_far a) + length cs <= COLS)%nat ->
  arun a (map Char cs) =
    Some {| guesses := guesses a; typed_so_far := typed_so_far a ++ map ascii_upper cs;
            astatus := AOngoing; secret := secret a |}.
Proof.
  revert a. induction cs as [|c cs IH]; intros a Hs Hlen.
  - destruct a; cbn in *. subst. by rewrite app_nil_r.
  - cbn [map arun leaves]. unfold astep. rewrite Hs.
    rewrite decide_True by (cbn in Hlen; lia).
    rewrite IH; [|done | cbn in *; rewrite length_app; cbn; lia]. cbn. by rewrite <- app_assoc.
Qed.

(** A full wrong attempt either records its colours and opens the next
    row, or, on the last row, loses. *)
Lemma arun_wrong_guess a gs :
  astatus a = AOngoing -> typed_so_far a = [] -> length gs = COLS ->
  str_to_lowercase gs <> str_to_lowercase (secret a) ->
  arun a (guess_keys gs) =
    Some (if decide (ROWS <= S (length (guesses a)))%nat then
            {| guesses := guesses a; typed_so_far := map ascii_upper gs;
               astatus := ALost; secret := secret a |}
          else
            {| guesses := guesses a ++ [judge (map ascii_upper gs) (secret a)];
               typed_so_far := []; astatus := AOngoing; secret := secret a |}).
Proof.
  intros Hs Ht Hl Hne. unfold guess_keys.
  rewrite arun_app, arun_type by first [done | rewrite Ht, Hl; cbn; lia].
  rewrite Ht. cbn [app arun leaves astatus]. unfold astep. cbn [astatus typed_so_far guesses secret].
  rewrite decide_True by (by rewrite length_map).
  rewrite decide_False.
  - by case_decide.
  - by rewrite str_to_lowercase_map, map_map, (map_ext _ _ ascii_lower_upper), <- str_to_lowercase_map.
Qed.

(** Six wrong attempts from a fresh game end in [ALost]. *)
Lemma arun_six_wrong a gs :
  astatus a = AOngoing -> typed_so_far a = [] ->
  (length (guesses a) + length gs = ROWS)%nat -> gs <> [] ->
  Forall (fun w => length w = COLS /\ str_to_lowercase w <> str_to_lowercase (secret a)) gs ->
  exists a', arun a (concat (map guess_keys gs)) = Some a' /\ astatus a' = ALost /\
    S (length (guesses a')) = ROWS.
Proof.
  revert a. induction gs as [|w gs IH]; intros a Hs Ht Hn Hne Hall; [done|].
  apply Forall_cons in Hall as [[Hw Hwne] Hall].
  cbn [map concat]. rewrite arun_app, (arun_wrong_guess a w Hs Ht Hw Hwne).
  destruct gs as [|w' gs].
  - rewrite decide_True by (cbn in Hn; lia). cbn. eexists. split; [done|]. split; [done|].
    cbn in *. unfold ROWS in *. lia.
  - rewrite decide_False by (cbn in Hn; lia). apply IH; try done.
    cbn in *. rewrite length_app. cbn. lia.
Qed.

Section Runs.
Context {G : Type} `{Rng G}.
Variable words_txt : list ascii.

(** A run of the specification's machine that neither leaves nor restarts
    is matched by [run_events] on the same keys, from any state of the
    invariant whose word has five chars or more: the loop does not panic
    and ends in a state whose abstraction is the run's end. *)
Lemma run_events_refines ks app g a' :
  app_inv app -> (COLS <= length (word app))%nat -> arun (abs app) ks = Some a' ->
  exists app' g', run_events words_txt app g (map Key ks) = Ok (Waiting app' g') /\
    abs app' = a' /\ app_inv app'.
Proof.
  revert app g. induction ks as [|k ks IH]; intros app g Hinv Hw Hrun; cbn [arun] in Hrun.
  - invc Hrun. cbn. eauto.
  - destruct (leaves (abs app) k) eqn:Hl; [done|].
    destruct (astep (abs app) k []) as [a1|] eqn:Ha; [|done].
    destruct (handle_key_no_panic words_txt app g k Hinv Hw) as [[|app1 g1] Hk].
    + apply (handle_key_exit_sim words_txt app g k []) in Hk as [-> _]. discriminate.
    + pose proof (handle_key_continue_sim words_txt app g k app1 g1 Hinv Hk) as Hr.
      destruct (astep_stays _ _ _ [] _ Hl Hr) as [Hr' Hsec]. rewrite Ha in Hr'. invc Hr'.
      cbn [run_events map]. rewrite Hk. cbn [rbind].
      apply IH; [by eapply handle_key_inv | cbn in Hsec; by rewrite Hsec | done].
Qed.

Lemma abs_status_Lost app : astatus (abs app) = ALost -> status app = Lost.
Proof. cbn. by destruct (status app). Qed.

(** C4: Six full wrong guesses in a fresh game (a secret of five chars or more,
    no guess equal to it up to case) end the game [Lost], without a panic
    and without a seventh row. *)
Theorem six_wrong_guesses_lost g app g' gs :
  app_default words_txt g = Ok (app, g') -> (COLS <= length (word app))%nat ->
  length gs = ROWS ->
  Forall (fun w => length w = COLS /\ str_to_lowercase w <> str_to_lowercase (word app)) gs ->
  exists app'' g'', run_events words_txt app g' (map Key (concat (map guess_keys gs))) = Ok (Waiting app'' g'') /\
    status app'' = Lost /\ (row_of app'' = 5)%N.
Proof.
  intros Hd Hw Hl Hall.
  destruct (arun_six_wrong (abs app) gs) as (a' & Hrun & Hlost & Hlen).
  - by rewrite (abs_app_default words_txt g app g' Hd).
  - by rewrite (abs_app_default words_txt g app g' Hd).
  - rewrite (abs_app_default words_txt g app g' Hd). cbn. by rewrite Hl.
  - intros ->. discriminate.
  - done.
  - destruct (run_events_refines _ app g' a' (app_default_inv words_txt g app g' Hd) Hw Hrun)
      as (app'' & g'' & Hr & Habs & Hinv'').
    exists app'', g''. split; [done|]. split; [apply abs_status_Lost; congruence|].
    pose proof (abs_guesses_length app'' Hinv'') as Hg. rewrite Habs in Hg. unfold ROWS in Hlen. lia.
Qed.
End Runs.

(** ** Witnesses *)

Lemma handle_key_refines_witness :
  astep (abs {| characters := default_characters; position := (0%N, 0%N); status := Ongoing;
                word := lit "crane"; message := [] |}) (Char "x") (lit "crane") =
  Some (abs {| characters := <[0%nat := <[0%nat := {| character := "X"%char; Board.status := NotGuessed |}]>
                                         (replicate COLS blank)]> default_characters;
               position := (0%N, 1%N); status := Ongoing; word := lit "crane"; message := [] |}).
Proof.
  apply (handle_key_refines (lit "crane")
           {| characters := default_characters; position := (0%N, 0%N); status := Ongoing;
              word := lit "crane"; message := [] |} (0%N : Lcg64) (Char "x")
           (Continue {| characters := <[0%nat := <[0%nat := {| character := "X"%char;
                                                               Board.status := NotGuessed |}]>
                                                  (replicate COLS blank)]> default_characters;
                        position := (0%N, 1%N); status := Ongoing; word := lit "crane"; message := [] |}
                     (0%N : Lcg64))); [by_decide | vm_compute; reflexivity].
Defined.

Lemma six_wrong_guesses_lost_witness :
  exists app'' g'', run_events (lit "crane")
    {| characters := default_characters; position := (0%N, 0%N); status := Ongoing;
       word := lit "crane"; message := [] |} (lcg_next 0 : Lcg64)
    (map Key (concat (map guess_keys (replicate 6 (lit "aaaaa"))))) = Ok (Waiting app'' g'') /\
    status app'' = Lost /\ (row_of app'' = 5)%N.
Proof.
  apply (six_wrong_guesses_lost (lit "crane") (0%N : Lcg64));
    [vm_compute; reflexivity | eval_arith | reflexivity | by_decide].
Defined.
