(* ===== verification/Ui.v ===== *)
(** * Ui: what a frame shows

    The parts of [ui] (main.rs, lines 157-244) that depend on the game
    state: the title line (lines 168-175), the colour of a cell by its
    status (217-222), the 6 x 5 grid read by index (198-227) while the game
    is on, and the texts of the [Lost] and [Won] screens (229-242).  Layout
    (rectangles, ratios, borders) is pure rendering and is not modelled. *)
From Stdlib Require Import DecimalString.
From S2P Require Import Prelude RustChar Rng WordPool Compare Board Game.

Inductive Color :=
  | Green
  | Red
  | Yellow
  | White.

#[export] Instance Color_eq_dec : EqDecision Color.
Proof. solve_decision. Defined.

(** [match app.characters[i][n].status { .. }] (lines 217-222). *)
Definition status_color (s : CharacterStatus) : Color :=
  match s with
  | Correct => Green
  | Incorrect => Red
  | SomewhereElse => Yellow
  | NotGuessed => White
  end.

(** [format!("{}", n)] of a [usize]. *)
Definition usize_to_string (n : N) : list ascii := lit (NilEmpty.string_of_uint (N.to_uint n)).

(** [format!("FIMSHDLE WORD : {} message : {}", app.word, app.message)]
    (lines 169-172). *)
Definition title (app : App) : list ascii :=
  lit "FIMSHDLE WORD : " ++ word app ++ lit " message : " ++ message app.

(** What is drawn below the title. *)
Inductive Body :=
  | Grid (cells : list (list (list ascii * Color)))
  | Text (t : list ascii).

(** One cell of the grid: [app.characters[i][n]]'s char as a string, in
    its status's colour (lines 214-225). *)
Definition grid_cell (app : App) (i n : N) : result (list ascii * Color) :=
  row <- arr_get (characters app) i ;;
  c <- arr_get row n ;;
  Ok (char_to_string (character c), status_color (Board.status c)).

(** [for i in 0..6 { .. for n in 0..5 { .. } }] (lines 198-227). *)
Definition grid (app : App) : result (list (list (list ascii * Color))) :=
  rmap (fun i => rmap (fun n => grid_cell app i n) (range 0 5)) (range 0 6).

(** [match app.status { .. }] of [ui] (lines 176-243). *)
Definition body (app : App) : result Body :=
  match status app with
  | Ongoing => cells <- grid app ;; Ok (Grid cells)
  | Lost => Ok (Text (lit "You lost the word was  : " ++ word app ++ lit " press enter to restart"))
  | Won =>
      n <- usize_add (row_of app) 1 ;;
      Ok (Text (lit "You won with " ++ usize_to_string n ++ lit " guesses press enter to restart"))
  end.

(** A frame: the title and the body. *)
Definition ui (app : App) : result (list ascii * Body) :=
  b <- body app ;; Ok (title app, b).

(** The grid a well-formed board shows. *)
Definition cell_face (c : Character) : list ascii * Color :=
  (char_to_string (character c), status_color (Board.status c)).

(** ** Lemmas *)

Lemma status_color_White s : status_color s = White <-> s = NotGuessed.
Proof. by destruct s. Qed.

Lemma grid_ok app :
  app_inv app -> grid app = Ok (map (map cell_face) (characters app)).
Proof.
  intros [(Hl & Hf) _]. destruct app as [b pos st w msg]; cbn in *. unfold ROWS, COLS in *.
  do 6 (destruct b as [|?r b]; [discriminate|]). destruct b; [|discriminate].
  repeat match goal with H : Forall _ (_ :: _) |- _ => inversion H; subst; clear H end.
  repeat match goal with
         | r : list Character, H : length ?r = 5%nat |- _ =>
             do 5 (destruct r as [|? r]; [discriminate|]); destruct r; [|discriminate]; clear H
         end.
  reflexivity.
Qed.

(** Drawing a frame never panics in a state of the invariant. *)
Lemma ui_no_panic app : app_inv app -> exists frame, ui app = Ok frame.
Proof.
  intros Hinv. unfold ui, body. destruct (status app).
  - rewrite grid_ok by done. cbn. eauto.
  - rewrite usize_add_ok by (destruct Hinv as (_ & ? & _); unfold usize_max; lia). cbn. eauto.
  - cbn. eauto.
Qed.

Section Frames.
Context {G : Type} `{Rng G}.
Variable words_txt : list ascii.

(** C19: While the game is on, the grid of every reachable state shows the rows
    of submitted guesses in colour and every other row in white. *)
Theorem ui_colours_submitted_rows app g :
  reachable words_txt app g -> status app = Ongoing ->
  exists cells, ui app = Ok (title app, Grid cells) /\
    forall r (crow : list (list ascii * Color)), cells !! r = Some crow ->
      ((N.to_nat (row_of app) <= r)%nat -> Forall (fun x => x.2 = White) crow) /\
      ((r < N.to_nat (row_of app))%nat -> Forall (fun x => x.2 <> White) crow).
Proof.
  intros Hr Hs. pose proof (reachable_app_inv _ _ _ Hr) as Hinv.
  pose proof (reachable_statuses _ _ _ Hr) as Hst.
  exists (map (map cell_face) (characters app)). split.
  - unfold ui, body. rewrite Hs, grid_ok by done. done.
  - intros r crow Hcrow. rewrite list_lookup_fmap in Hcrow.
    destruct (characters app !! r) as [row|] eqn:Hrow; [|done]. invc Hcrow.
    destruct (Hst r row Hrow) as [H1 H2]. split; intros Hle; apply Forall_map;
      [eapply Forall_impl; [exact (H1 Hle)|] | eapply Forall_impl; [exact (H2 Hle)|]];
      intros c Hc; cbn; by rewrite status_color_White.
Qed.

(** C20: Every frame of every reachable state prints the secret word in its
    title, the game's answer included while it is being played. *)
Theorem ui_shows_secret app g :
  reachable words_txt app g ->
  exists t b, ui app = Ok (t, b) /\ exists pre suf, t = pre ++ word app ++ suf.
Proof.
  intros Hr. destruct (ui_no_panic app (reachable_app_inv _ _ _ Hr)) as [[t b] Hui].
  exists t, b. split; [done|]. unfold ui in Hui.
  destruct (body app); cbn in Hui; [|done]. invc Hui.
  exists (lit "FIMSHDLE WORD : "), (lit " message : " ++ message app). done.
Qed.
(** C31: The end screens of every reachable state.  A won game's frame
    counts the guesses made: the rows the board shows coloured, plus the
    winning guess, whose row the code leaves uncoloured.  A lost game comes
    after five coloured rows and a sixth wrong guess, left uncoloured, and
    its frame tells the secret. *)
Theorem ui_end_screens app g :
  reachable words_txt app g ->
  (status app = Won ->
   ui app = Ok (title app, Text (lit "You won with " ++
                                 usize_to_string (N.of_nat (S (coloured_rows (characters app)))) ++
                                 lit " guesses press enter to restart"))) /\
  (status app = Lost ->
   coloured_rows (characters app) = 5%nat /\
   ui app = Ok (title app, Text (lit "You lost the word was  : " ++ word app ++
                                 lit " press enter to restart"))).
Proof.
  intros Hr. pose proof (reachable_app_inv _ _ _ Hr) as Hinv.
  rewrite (coloured_rows_inv app Hinv (reachable_statuses _ _ _ Hr)).
  unfold ui, body. split; intros Hs; rewrite Hs.
  - rewrite usize_add_ok by (destruct Hinv as (_ & ? & _); unfold usize_max; lia).
    cbn [rbind]. by replace (N.of_nat (S (N.to_nat (row_of app)))) with (row_of app + 1)%N by lia.
  - split; [|done]. by rewrite (reachable_lost_row _ _ _ Hr Hs).
Qed.
End Frames.

(** ** Witnesses *)

(** The state after guessing "crane" at once. *)
Definition crane_won : App :=
  {| characters := <[0%nat := map (fun c => {| character := c; Board.status := NotGuessed |}) (lit "CRANE")]>
                     default_characters;
     position := (0%N, 5%N); status := Won; word := lit "crane"; message := jeromes |}.

Lemma ui_end_screens_witness :
  (status crane_won = Won ->
   ui crane_won = Ok (title crane_won, Text (lit "You won with " ++
                                             usize_to_string (N.of_nat (S (coloured_rows (characters crane_won)))) ++
                                             lit " guesses press enter to restart"))) /\
  (status crane_won = Lost ->
   coloured_rows (characters crane_won) = 5%nat /\
   ui crane_won = Ok (title crane_won, Text (lit "You lost the word was  : " ++ word crane_won ++
                                             lit " press enter to restart"))).
Proof.
  apply (ui_end_screens (lit "crane") crane_won (lcg_next 0 : Lcg64)).
  apply (run_events_reachable _ {| characters := default_characters; position := (0%N, 0%N); status := Ongoing;
                                   word := lit "crane"; message := [] |} (lcg_next 0 : Lcg64) (typed "crane")).
  - apply (reachable_start _ (0%N : Lcg64)). vm_compute. reflexivity.
  - vm_compute. reflexivity.
Defined.

Lemma ui_colours_submitted_rows_witness :
  exists cells, ui {| characters := <[0%nat := evaluated_row (map (fun c => {| character := c; Board.status := NotGuessed |})
                                                     (lit "TRACE")) (lit "crane")]> default_characters;
                      position := (1%N, 0%N); status := Ongoing; word := lit "crane"; message := [] |} =
    Ok (lit "FIMSHDLE WORD : crane message : ", Grid cells) /\
    forall r (crow : list (list ascii * Color)), cells !! r = Some crow ->
      ((1 <= r)%nat -> Forall (fun x => x.2 = White) crow) /\
      ((r < 1)%nat -> Forall (fun x => x.2 <> White) crow).
Proof.
  apply (ui_colours_submitted_rows (lit "crane") {| characters := <[0%nat := evaluated_row (map (fun c => {| character := c; Board.status := NotGuessed |})
                                                     (lit "TRACE")) (lit "crane")]> default_characters;
                      position := (1%N, 0%N); status := Ongoing; word := lit "crane"; message := [] |} (lcg_next 0 : Lcg64)); [|reflexivity].
  apply (run_events_reachable _ {| characters := default_characters; position := (0%N, 0%N); status := Ongoing;
                                   word := lit "crane"; message := [] |} (lcg_next 0 : Lcg64) (typed "trace")).
  - apply (reachable_start _ (0%N : Lcg64)). vm_compute. reflexivity.
  - vm_compute. reflexivity.
Defined.

Lemma ui_shows_secret_witness :
  exists t b, ui {| characters := default_characters; position := (0%N, 0%N); status := Ongoing;
                    word := lit "crane"; message := [] |} = Ok (t, b) /\
    exists pre suf, t = pre ++ lit "crane" ++ suf.
Proof.
  apply (ui_shows_secret (lit "crane")
           {| characters := default_characters; position := (0%N, 0%N); status := Ongoing;
              word := lit "crane"; message := [] |} (lcg_next 0 : Lcg64)).
  apply (reachable_start _ (0%N : Lcg64)). vm_compute. reflexivity.
Defined.
