(* ===== verification/Session.v ===== *)
(** * Session: the event loop [run_app] with its frames and its I/O

    [run_app] (main.rs, lines 86-147) loops forever: it draws a frame with
    [ui] ([terminal.draw(|f| ui(f, &app))?], line 88), blocks in
    [event::read()?] (line 89), and hands a key event to the [match] that
    [Game.handle_key] models.  Both calls are fallible and [?] returns
    their error from [run_app].

    The model takes the terminal's answers as a finite trace [list Io]: a
    turn whose draw fails, a turn whose read fails, or a turn that reads a
    crossterm event.  When the trace runs out the loop is blocked in
    [event::read] after drawing its frame ([Blocked]).  crossterm's events
    are kept as crossterm has them ([Crossterm.Event], with the key's
    [KeyEventKind]) and decoded the way line 89 does.

    The theorems: the loop never panics on any trace ([run_app_no_panic]);
    on a trace without I/O errors it is the fold of [Game.run_events] over
    the decoded events ([run_app_events], the bridge every other run
    theorem goes through); a failed draw or read ends it with an error
    ([run_app_io_error]); it refines the specification's machine
    ([run_app_refines]); a key release is handled as a press
    ([release_types_twice]); a secret shorter than five chars makes the
    first guess panic ([start_short_secret_panics]). *)
From S2P Require Import Prelude RustChar Rng WordPool Compare Board Game GameSpec Ui.

(** crossterm's [KeyEventKind]: on Windows every key is reported pressed
    and released; on Unix only presses are reported unless the keyboard
    enhancement flags are pushed, which [main] does not do. *)
Inductive KeyEventKind :=
  | Press
  | Repeat
  | Release.

(** crossterm's [KeyEvent]: the loop reads only [code]; [kind] is kept
    because the loop does not look at it.  The modifiers and the state are
    left out. *)
Record KeyEvent := mkKeyEvent {
  key_code : KeyCode;
  key_kind : KeyEventKind
}.

Module Crossterm.
(** crossterm's [Event]; the payloads the loop never reads (mouse events)
    are left out. *)
Inductive Event :=
  | FocusGained
  | FocusLost
  | Key (key : KeyEvent)
  | Mouse
  | Paste (s : list ascii)
  | Resize (columns rows : N).
End Crossterm.

(** [if let Event::Key(key) = event::read()? { match .. key.code .. }]
    (lines 89-91): a key event is handled by its code, whatever its kind;
    every other event is skipped. *)
Definition decode (e : Crossterm.Event) : Decoded :=
  match e with
  | Crossterm.Key key => Key (key_code key)
  | _ => OtherEvent
  end.

(** The terminal's answer to one turn of the loop. *)
Inductive Io :=
  | DrawFailed
  | ReadFailed
  | Read (e : Crossterm.Event).

(** How [run_app] ends: [Ok(())] on [Esc], [Err] from a failed draw or
    read, or blocked in [event::read] when the trace runs out. *)
Inductive RunEnd (G : Type) :=
  | ReturnedOk
  | ReturnedErr
  | Blocked (app : App) (g : G).
Arguments ReturnedOk {G}.
Arguments ReturnedErr {G}.
Arguments Blocked {G} app g.

Section Loop.
Context {G : Type} `{Rng G}.
Variable words_txt : list ascii.

(** [fn run_app] (lines 86-147).  Each turn renders the frame ([ui] runs
    inside [terminal.draw], so its panics come first); a failed draw or
    read returns the error; a decoded key runs the [match]. *)
Fixpoint run_app (app : App) (g : G) (ios : list Io) : result (RunEnd G) :=
  _ <- ui app ;;
  match ios with
  | [] => Ok (Blocked app g)
  | DrawFailed :: _ => Ok ReturnedErr
  | ReadFailed :: _ => Ok ReturnedErr
  | Read e :: ios' =>
      match decode e with
      | OtherEvent => run_app app g ios'
      | Key k =>
          c <- handle_key words_txt app g k ;;
          match c with
          | Exit => Ok ReturnedOk
          | Continue app' g' => run_app app' g' ios'
          end
      end
  end.

(** [let app = App::default(); let res = run_app(&mut terminal, app);]
    (lines 72-73). *)
Definition start (g : G) (ios : list Io) : result (RunEnd G) :=
  ag <- app_default words_txt g ;; run_app ag.1 ag.2 ios.
End Loop.

(** The program's loop when [words.txt] reads as [file]: [App::default]
    reads it first and panics if it cannot; the file is taken to read the
    same at every reset. *)
Definition start_file {G} `{Rng G} (g : G) (file : option (list ascii)) (ios : list Io) : result (RunEnd G) :=
  contents <- read_words file ;; start contents g ios.

(** [run_events]' outcome as a way [run_app] ends. *)
Definition end_of {G} (o : Outcome G) : RunEnd G :=
  match o with
  | Exited => ReturnedOk
  | Waiting app g => Blocked app g
  end.

(** A key pressed or released, as [event::read] returns it. *)
Definition key_event (kd : KeyEventKind) (k : KeyCode) : Crossterm.Event :=
  Crossterm.Key {| key_code := k; key_kind := kd |}.

Definition press (k : KeyCode) : Io := Read (key_event Press k).

(** The presses that type a word and submit it. *)
Definition typed_in (s : string) : list Io := map press (map Char (lit s) ++ [Enter]).

(** ** The loop as the fold of [handle_key] *)

Lemma map_press ks : map press ks = map Read (map (key_event Press) ks).
Proof. by rewrite map_map. Qed.

Lemma decode_key_events kd ks : map decode (map (key_event kd) ks) = map Key ks.
Proof. by rewrite map_map. Qed.

Section LoopProps.
Context {G : Type} `{Rng G}.
Variable words_txt : list ascii.

Lemma run_events_inv app g evs app' g' :
  app_inv app -> run_events words_txt app g evs = Ok (Waiting app' g') -> app_inv app'.
Proof.
  revert app g. induction evs as [|[k|] evs IH]; intros app g Hinv Hr; cbn [run_events] in Hr.
  - by invc Hr.
  - destruct (handle_key words_txt app g k) as [[|a g1]|] eqn:Hk; cbn [rbind] in Hr; try done.
    eapply IH; [by eapply handle_key_inv | exact Hr].
  - by eapply IH.
Qed.

(** A trace that starts with events: [run_app] runs them as [run_events]
    does, then goes on with the rest of the trace. *)
Lemma run_app_prefix app g evs rest :
  app_inv app ->
  run_app words_txt app g (map Read evs ++ rest) =
    o <- run_events words_txt app g (map decode evs) ;;
    match o with
    | Exited => Ok ReturnedOk
    | Waiting app' g' => run_app words_txt app' g' rest
    end.
Proof.
  revert app g. induction evs as [|e evs IH]; intros app g Hinv; [done|].
  cbn [map Datatypes.app run_app]. destruct (ui_no_panic app Hinv) as [fr ->]. cbn [rbind].
  destruct (decode e) as [k|]; cbn [run_events]; [|by apply IH].
  destruct (handle_key words_txt app g k) as [[|a g1]|] eqn:Hk; cbn [rbind]; [done| |done].
  apply IH. by eapply handle_key_inv.
Qed.

(** The frame of a state the events lead to is drawn without a panic. *)
Lemma run_app_waiting app g evs app' g' :
  app_inv app -> run_events words_txt app g evs = Ok (Waiting app' g') ->
  exists fr, ui app' = Ok fr /\ app_inv app'.
Proof.
  intros Hinv Hr. pose proof (run_events_inv _ _ _ _ _ Hinv Hr) as Hinv'.
  destruct (ui_no_panic app' Hinv') as [fr Hui]. eauto.
Qed.

(** C9: On a trace without I/O errors, the loop with its frames is the fold
    of the key handling over the decoded events: drawing never changes the
    outcome, a run that quits returns [Ok(())], and a run whose trace runs
    out is blocked in the state the fold reaches. *)
Theorem run_app_events app g evs :
  app_inv app ->
  run_app words_txt app g (map Read evs) =
    o <- run_events words_txt app g (map decode evs) ;; Ok (end_of o).
Proof.
  intros Hinv. rewrite <- (app_nil_r (map Read evs)), run_app_prefix by done.
  destruct (run_events words_txt app g (map decode evs)) as [[|app' g']|] eqn:Hr; cbn [rbind]; [done| |done].
  destruct (run_app_waiting _ _ _ _ _ Hinv Hr) as (fr & Hui & _). cbn. by rewrite Hui.
Qed.

(** A turn whose draw or read fails returns the error. *)
Lemma run_app_io_fail app g io rest :
  app_inv app -> io = DrawFailed \/ io = ReadFailed -> run_app words_txt app g (io :: rest) = Ok ReturnedErr.
Proof. intros Hinv Hio. cbn. destruct (ui_no_panic app Hinv) as [fr ->]. by destruct Hio as [-> | ->]. Qed.

(** An [Esc] event, pressed or released, returns [Ok(())]. *)
Lemma run_app_esc app g kd rest :
  app_inv app -> run_app words_txt app g (Read (key_event kd Esc) :: rest) = Ok ReturnedOk.
Proof. intros Hinv. cbn. destruct (ui_no_panic app Hinv) as [fr ->]. cbn. by rewrite handle_key_esc. Qed.

(** C22: A failed draw or read after any events ends the loop with the
    error, unless the player quit before. *)
Theorem run_app_io_error app g evs io rest :
  io = DrawFailed \/ io = ReadFailed -> app_inv app ->
  run_app words_txt app g (map Read evs ++ io :: rest) =
    o <- run_events words_txt app g (map decode evs) ;;
    Ok (match o with Exited => ReturnedOk | Waiting _ _ => ReturnedErr end).
Proof.
  intros Hio Hinv. rewrite run_app_prefix by done.
  destruct (run_events words_txt app g (map decode evs)) as [[|app' g']|] eqn:Hr; cbn [rbind]; [done| |done].
  apply run_app_io_fail; [by eapply run_events_inv | done].
Qed.

(** With a pool of five-char secrets, the program runs any events without a
    panic: it has quit, or it goes on with the rest of the trace in a state
    of the invariant with a five-char secret. *)
Lemma start_prefix g evs rest :
  pool_ok words_txt ->
  start words_txt g (map Read evs ++ rest) = Ok ReturnedOk \/
  exists app' g', start words_txt g (map Read evs ++ rest) = run_app words_txt app' g' rest /\
    app_inv app' /\ (COLS <= length (word app'))%nat.
Proof.
  intros Hpool. unfold start.
  destruct (app_default_ok words_txt g) as (w & g' & E & _). rewrite E. cbn [rbind fst snd].
  destruct (app_default_pool_ok words_txt g _ g' Hpool E) as [Hinv Hw].
  rewrite run_app_prefix by done.
  destruct (run_events_no_panic words_txt (map decode evs) _ g' Hpool Hinv Hw) as [o Ho].
  rewrite Ho. cbn [rbind]. destruct o as [|app' g'']; [by left | right].
  exists app', g''. split; [done|]. by eapply run_events_pool_ok.
Qed.

(** With a pool of five-char secrets, the loop never panics, whatever the
    terminal answers: no frame, no key and no reset crashes it. *)
Lemma run_app_no_panic ios app g :
  pool_ok words_txt -> app_inv app -> (COLS <= length (word app))%nat ->
  exists r, run_app words_txt app g ios = Ok r.
Proof.
  intros Hpool. revert app g. induction ios as [|io ios IH]; intros app g Hinv Hw;
    cbn [run_app]; destruct (ui_no_panic app Hinv) as [fr ->]; cbn [rbind]; [eauto|].
  destruct io as [| |e]; [eauto|eauto|]. destruct (decode e) as [k|]; [|by apply IH].
  destruct (handle_key_no_panic words_txt app g k Hinv Hw) as [[|app' g'] Hk]; rewrite Hk; cbn [rbind]; [eauto|].
  destruct (handle_key_continue_ok _ _ _ _ _ _ Hpool Hinv Hw Hk). by apply IH.
Qed.

(** With such a pool the program's loop never panics. *)
Lemma start_no_panic g ios : pool_ok words_txt -> exists r, start words_txt g ios = Ok r.
Proof.
  intros Hpool. unfold start.
  destruct (app_default_ok words_txt g) as (w & g' & E & _). rewrite E. cbn [rbind fst snd].
  destruct (app_default_pool_ok words_txt g _ g' Hpool E) as [Hinv Hw].
  by apply run_app_no_panic.
Qed.

(** C10: The player can always quit: with a pool of five-char secrets, the
    program's loop returns [Ok(())] at the first [Esc] after any events, be
    it reported pressed or released. *)
Theorem start_esc_exits g evs kd rest :
  pool_ok words_txt ->
  start words_txt g (map Read evs ++ Read (key_event kd Esc) :: rest) = Ok ReturnedOk.
Proof.
  intros Hpool. destruct (start_prefix g evs (Read (key_event kd Esc) :: rest) Hpool)
    as [-> | (app' & g' & -> & Hinv & _)]; [done|]. by apply run_app_esc.
Qed.

(** C25: The loop with its frames refines the specification's machine: a
    run of the machine that neither leaves nor restarts is matched by
    [run_app] on the same key presses, which ends blocked in a state whose
    abstraction is the run's end. *)
Theorem run_app_refines ks app g a' :
  app_inv app -> (COLS <= length (word app))%nat -> arun (abs app) ks = Some a' ->
  exists app' g', run_app words_txt app g (map press ks) = Ok (Blocked app' g') /\ abs app' = a'.
Proof.
  intros Hinv Hw Hrun.
  rewrite map_press, <- (app_nil_r (map Read _)), run_app_prefix, decode_key_events by done.
  destruct (run_events_refines words_txt ks app g a' Hinv Hw Hrun) as (app' & g' & Hr & Habs & Hinv').
  rewrite Hr. cbn. destruct (ui_no_panic app' Hinv') as [fr ->]. eauto.
Qed.
(** Typing a char at a column with room for it, in a game that is on. *)
Lemma handle_key_char_ok app g c :
  app_inv app -> status app = Ongoing -> (col_of app < 5)%N ->
  exists row cell, characters app !! N.to_nat (row_of app) = Some row /\
    row !! N.to_nat (col_of app) = Some cell /\
    handle_key words_txt app g (Char c) = Ok (Continue {|
      characters := <[N.to_nat (row_of app) :=
                       <[N.to_nat (col_of app) := {| character := ascii_upper c;
                                                     Board.status := Board.status cell |}]> row]>
                      (characters app);
      position := (row_of app, col_of app + 1)%N; status := status app;
      word := word app; message := message app |} g).
Proof.
  intros Hinv Hs Hc. destruct (on_char_ok app Hinv c Hc) as (row & cell & Hrow & Hcell & E).
  exists row, cell. split; [done|]. split; [done|].
  unfold handle_key. rewrite E. destruct (status app); [done|discriminate|discriminate].
Qed.

(** C17: The loop handles a key event whatever its kind.  Where crossterm
    reports the release of a key as well as its press (on Windows), one
    keystroke of a letter, in a game that is on with room for two more
    letters, types the letter twice: the cursor moves two columns right
    and both cells show the letter uppercased. *)
Theorem release_types_twice app g c :
  app_inv app -> status app = Ongoing -> (col_of app + 2 <= 5)%N ->
  exists app', run_app words_txt app g [Read (key_event Press (Char c)); Read (key_event Release (Char c))] =
      Ok (Blocked app' g) /\
    row_of app' = row_of app /\ col_of app' = (col_of app + 2)%N /\
    exists row', characters app' !! N.to_nat (row_of app) = Some row' /\
      character <$> row' !! N.to_nat (col_of app) = Some (ascii_upper c) /\
      character <$> row' !! S (N.to_nat (col_of app)) = Some (ascii_upper c).
Proof.
  intros Hinv Hs Hc.
  destruct (handle_key_char_ok app g c Hinv Hs) as (row & cell & Hrow & Hcell & E1); [lia|].
  pose proof (handle_key_inv _ _ _ _ _ _ Hinv E1) as Hinv1.
  destruct (handle_key_char_ok _ g c Hinv1 Hs) as (row1 & cell1 & Hrow1 & Hcell1 & E2);
    [unfold col_of in *; cbn; lia|].
  pose proof (handle_key_inv _ _ _ _ _ _ Hinv1 E2) as Hinv2.
  cbn [run_app decode key_event key_code].
  destruct (ui_no_panic app Hinv) as [fr ->]. cbn [rbind]. rewrite E1. cbn [rbind].
  destruct (ui_no_panic _ Hinv1) as [fr1 ->]. cbn [rbind]. rewrite E2. cbn [rbind].
  destruct (ui_no_panic _ Hinv2) as [fr2 ->]. cbn [rbind].
  eexists. split; [done|]. unfold row_of, col_of in *; cbn in *.
  split; [done|]. split; [lia|].
  pose proof (lookup_lt_Some _ _ _ Hrow) as Hr. pose proof (lookup_lt_Some _ _ _ Hcell) as Hcl.
  rewrite list_lookup_insert_eq in Hrow1 by done. invc Hrow1.
  eexists. split; [rewrite list_lookup_insert_eq; [reflexivity | by rewrite length_insert]|].
  replace (N.to_nat ((position app).2 + 1)) with (S (N.to_nat (position app).2)) by lia.
  rewrite list_lookup_insert_ne, list_lookup_insert_eq by (try rewrite length_insert; lia).
  split; [done|]. rewrite list_lookup_insert_eq; [done|].
  apply lookup_lt_Some in Hcell1. rewrite !length_insert in Hcell1 |- *. lia.
Qed.
(** A secret shorter than five chars: typing five letters and Enter, the
    first thing the player does, makes the loop panic. *)
Lemma start_short_secret_panics g app g' cs rest :
  app_default words_txt g = Ok (app, g') -> (length (word app) < COLS)%nat -> length cs = COLS ->
  start words_txt g (map press (map Char cs) ++ press Enter :: rest) = Panic IndexOutOfBounds.
Proof.
  intros Hd Hw Hcs. unfold start. rewrite Hd. cbn [rbind fst snd].
  pose proof (app_default_inv _ _ _ _ Hd) as Hinv.
  destruct (app_default_ok words_txt g) as (w & g'' & E & _). rewrite E in Hd. invc Hd.
  rewrite map_press, run_app_prefix, decode_key_events, map_map by done.
  destruct (run_events_type words_txt _ g' cs Hinv eq_refl) as (app' & -> & Hinv' & Hs' & Hr' & Hc' & Hw');
    [cbn; lia|].
  cbn [rbind run_app]. destruct (ui_no_panic app' Hinv') as [fr ->]. cbn [rbind decode press key_event key_code].
  unfold handle_key. rewrite Hs'.
  destruct (inv_current_row app' Hinv') as (row & Hrow & _).
  rewrite (on_enter_short_word app' row Hinv'); [done | | done | | ].
  - rewrite Hc', Hcs. done.
  - rewrite Hr'. done.
  - by rewrite Hw'.
Qed.
End LoopProps.

(** ** Witnesses *)

Definition crane_app : App :=
  {| characters := default_characters; position := (0%N, 0%N); status := Ongoing;
     word := lit "crane"; message := [] |}.

Lemma run_app_events_witness :
  app_inv crane_app /\
  run_app (lit "crane") crane_app (0%N : Lcg64) (map Read (map (key_event Press) (map Char (lit "ab")))) =
    o <- run_events (lit "crane") crane_app (0%N : Lcg64) (map decode (map (key_event Press) (map Char (lit "ab"))))
    ;; Ok (end_of o).
Proof. split; [decide_inv | apply run_app_events; decide_inv]. Defined.

Lemma run_app_io_error_witness :
  run_app (lit "crane") crane_app (0%N : Lcg64) (map Read [key_event Press (Char "a")] ++ ReadFailed :: []) =
    o <- run_events (lit "crane") crane_app (0%N : Lcg64) (map decode [key_event Press (Char "a")]) ;;
    Ok (match o with Exited => ReturnedOk | Waiting _ _ => ReturnedErr end).
Proof. apply run_app_io_error; [by right | decide_inv]. Defined.

Lemma start_esc_exits_witness :
  start (lit "crane
slate") (0%N : Lcg64)
    (map Read (map (key_event Press) (map Char (lit "crane") ++ [Enter; Enter])) ++
     Read (key_event Release Esc) :: [ReadFailed]) = Ok ReturnedOk.
Proof. apply start_esc_exits. unfold pool_ok. by_decide. Defined.

Lemma run_app_refines_witness :
  exists app' g', run_app (lit "crane") crane_app (0%N : Lcg64) (map press (guess_keys (lit "tracer"))) =
    Ok (Blocked app' g') /\
    abs app' = {| guesses := [judge (lit "TRACE") (lit "crane")]; typed_so_far := [];
                  astatus := AOngoing; secret := lit "crane" |}.
Proof. apply run_app_refines; [decide_inv | eval_arith | vm_compute; reflexivity]. Defined.

Lemma release_types_twice_witness :
  exists app', run_app (lit "crane") crane_app (0%N : Lcg64)
      [Read (key_event Press (Char "c")); Read (key_event Release (Char "c"))] = Ok (Blocked app' (0%N : Lcg64)) /\
    row_of app' = row_of crane_app /\ col_of app' = (col_of crane_app + 2)%N /\
    exists row', characters app' !! N.to_nat (row_of crane_app) = Some row' /\
      character <$> row' !! N.to_nat (col_of crane_app) = Some (ascii_upper "c") /\
      character <$> row' !! S (N.to_nat (col_of crane_app)) = Some (ascii_upper "c").
Proof. apply release_types_twice; [decide_inv | reflexivity | eval_arith]. Defined.
