(* ===== verification/Main.v ===== *)
(** * Main: the terminal lifecycle around the game

    [main] (main.rs, lines 64-85) switches the terminal into raw mode, the
    alternate screen and mouse capture, builds a [tui::Terminal], runs the
    game, then switches everything back.  Every call is fallible and [?]
    returns at the first failure; a panic unwinds through [main] and only
    the [Terminal]'s destructor runs (it shows the cursor if a draw hid it).

    The model threads the terminal's modes through a state-and-exit monad
    [TermM]: an oracle [io] says which calls succeed, and the game's run is
    given as its outcome (returned by [Esc], returned an I/O error, panicked,
    or still running), which [run_result_of] reads off [Session.start]; the
    theorems of the last section are about the whole program. *)
From S2P Require Import Prelude RustChar Rng WordPool Compare Board Game GameSpec Ui Session.

Record Term := mkTerm {
  raw_mode : bool;
  alternate_screen : bool;
  mouse_capture : bool;
  cursor_hidden : bool;
  terminal_built : bool
}.

(** The user's terminal before the program starts. *)
Definition term0 : Term :=
  {| raw_mode := false; alternate_screen := false; mouse_capture := false;
     cursor_hidden := false; terminal_built := false |}.

(** The terminal is as the program found it. *)
Definition restored (t : Term) : Prop :=
  raw_mode t = false /\ alternate_screen t = false /\ mouse_capture t = false /\ cursor_hidden t = false.

Inductive IoOp :=
  | EnableRawMode
  | EnterAlternateScreen
  | EnableMouseCapture
  | NewTerminal
  | DisableRawMode
  | LeaveAlternateScreen
  | DisableMouseCapture
  | ShowCursor.

(** How [main] ends. *)
Inductive MainExit :=
  | ExitOk
  | ExitErr (op : IoOp)
  | ExitPanic (p : panic_kind)
  | StillRunning.

(** What the game's run did: [run_app] returned [Ok(())] (on [Esc]),
    returned an I/O error from a draw or a read, panicked, or is still
    waiting for events. *)
Inductive RunResult :=
  | RunExited
  | RunIoError
  | RunPanicked (p : panic_kind)
  | RunWaiting.

(** A step of [main]: it goes on with a value or leaves with an exit. *)
Definition TermM (A : Type) : Type := Term -> (MainExit + A) * Term.

Definition tret {A} (a : A) : TermM A := fun t => (inr a, t).

Definition tbind {A B} (m : TermM A) (k : A -> TermM B) : TermM B :=
  fun t => match m t with
           | (inr a, t') => k a t'
           | (inl e, t') => (inl e, t')
           end.

Notation "m ;;; k" := (tbind m (fun _ => k)) (at level 64, right associativity) : rs_scope.

Definition set_op (op : IoOp) (t : Term) : Term :=
  match op with
  | EnableRawMode => {| raw_mode := true; alternate_screen := alternate_screen t;
                        mouse_capture := mouse_capture t; cursor_hidden := cursor_hidden t;
                        terminal_built := terminal_built t |}
  | EnterAlternateScreen => {| raw_mode := raw_mode t; alternate_screen := true;
                               mouse_capture := mouse_capture t; cursor_hidden := cursor_hidden t;
                               terminal_built := terminal_built t |}
  | EnableMouseCapture => {| raw_mode := raw_mode t; alternate_screen := alternate_screen t;
                             mouse_capture := true; cursor_hidden := cursor_hidden t;
                             terminal_built := terminal_built t |}
  | NewTerminal => {| raw_mode := raw_mode t; alternate_screen := alternate_screen t;
                      mouse_capture := mouse_capture t; cursor_hidden := cursor_hidden t;
                      terminal_built := true |}
  | DisableRawMode => {| raw_mode := false; alternate_screen := alternate_screen t;
                         mouse_capture := mouse_capture t; cursor_hidden := cursor_hidden t;
                         terminal_built := terminal_built t |}
  | LeaveAlternateScreen => {| raw_mode := raw_mode t; alternate_screen := false;
                               mouse_capture := mouse_capture t; cursor_hidden := cursor_hidden t;
                               terminal_built := terminal_built t |}
  | DisableMouseCapture => {| raw_mode := raw_mode t; alternate_screen := alternate_screen t;
                              mouse_capture := false; cursor_hidden := cursor_hidden t;
                              terminal_built := terminal_built t |}
  | ShowCursor => {| raw_mode := raw_mode t; alternate_screen := alternate_screen t;
                     mouse_capture := mouse_capture t; cursor_hidden := false;
                     terminal_built := terminal_built t |}
  end.

(** [op?]: the call either changes the terminal or makes [main] return
    its error. *)
Definition io_call (io : IoOp -> bool) (op : IoOp) : TermM unit :=
  fun t => if io op then (inr tt, set_op op t) else (inl (ExitErr op), t).

(** [let res = run_app(&mut terminal, app);] (line 73): every frame is
    drawn without a cursor, so the first draw hides it; the result [res] is
    not looked at; a panic leaves [main]; a run still waiting never comes
    back. *)
Definition run_phase (r : RunResult) : TermM unit :=
  fun t =>
    let t' := {| raw_mode := raw_mode t; alternate_screen := alternate_screen t;
                 mouse_capture := mouse_capture t; cursor_hidden := true;
                 terminal_built := terminal_built t |} in
    match r with
    | RunExited | RunIoError => (inr tt, t')
    | RunPanicked p => (inl (ExitPanic p), t')
    | RunWaiting => (inl StillRunning, t')
    end.

(** The body of [main] (lines 65-84). *)
Definition main_body (io : IoOp -> bool) (r : RunResult) : TermM unit :=
  io_call io EnableRawMode ;;;
  io_call io EnterAlternateScreen ;;; io_call io EnableMouseCapture ;;;
  io_call io NewTerminal ;;;
  run_phase r ;;;
  io_call io DisableRawMode ;;;
  io_call io LeaveAlternateScreen ;;; io_call io DisableMouseCapture ;;;
  io_call io ShowCursor ;;;
  tret tt.

(** Leaving [main] drops the [Terminal] if it was built; its destructor
    tries to show a hidden cursor and ignores a failure. *)
Definition drop_terminal (io : IoOp -> bool) (t : Term) : Term :=
  if terminal_built t && cursor_hidden t && io ShowCursor then set_op ShowCursor t else t.

Definition main_model (io : IoOp -> bool) (r : RunResult) : MainExit * Term :=
  let '(e, t) := main_body io r term0 in
  (match e with inl x => x | inr _ => ExitOk end, drop_terminal io t).

(** The run's outcome as [main] sees it, from the model of [run_app]. *)
Definition run_result_of {G} (o : result (RunEnd G)) : RunResult :=
  match o with
  | Ok ReturnedOk => RunExited
  | Ok ReturnedErr => RunIoError
  | Ok (Blocked _ _) => RunWaiting
  | Panic p => RunPanicked p
  end.

(** [main] ended in a panic. *)
Definition exit_panicked (e : MainExit) : bool :=
  match e with
  | ExitPanic _ => true
  | _ => false
  end.

(** ** How [main] leaves the terminal *)

Ltac main_compute :=
  unfold main_model, main_body, tbind, io_call, run_phase, tret, drop_terminal, restored; cbn.

(** When every call succeeds and the game returns, [main] returns
    [Ok(())] and gives the terminal back as it found it, also when the game
    returned an I/O error, which [main] drops. *)
Lemma main_restores io r :
  (forall op, io op = true) -> r = RunExited \/ r = RunIoError ->
  exists t, main_model io r = (ExitOk, t) /\ restored t.
Proof. intros Hio [-> | ->]; main_compute; rewrite !Hio; cbn; eexists; by repeat split. Qed.

(** C15: A panic during the game skips every restoring call: the terminal stays
    in raw mode, on the alternate screen, with mouse capture on. *)
Theorem main_panic_leaves_terminal io p :
  (forall op, io op = true) ->
  exists t, main_model io (RunPanicked p) = (ExitPanic p, t) /\
    raw_mode t = true /\ alternate_screen t = true /\ mouse_capture t = true.
Proof. intros Hio. main_compute. rewrite !Hio. cbn. eexists. by repeat split. Qed.

(** C26: A failure after raw mode is on returns at once and leaves raw mode on. *)
Theorem main_setup_error_leaves_raw io r :
  io EnableRawMode = true -> io EnterAlternateScreen = false ->
  exists t, main_model io r = (ExitErr EnterAlternateScreen, t) /\ raw_mode t = true.
Proof. intros H1 H2. main_compute. rewrite H1, H2. cbn. eexists. by split. Qed.

(** C12: The terminal comes back as it was exactly when [main] changed nothing
    (raw mode could not be enabled) or every call succeeded and the game
    returned. *)
Theorem main_restored_iff io r :
  restored (snd (main_model io r)) <->
    io EnableRawMode = false \/
    ((forall op, io op = true) /\ (r = RunExited \/ r = RunIoError)).
Proof.
  main_compute. destruct r;
    repeat (match goal with |- context [io ?op] => destruct (io op) eqn:? end; cbn);
    split; intros H;
    repeat match goal with
           | H : _ /\ _ |- _ => destruct H
           | H : _ \/ _ |- _ => destruct H
           | H : forall op : IoOp, io op = true, E : io ?o = false |- _ => specialize (H o); congruence
           end; try discriminate; try congruence;
    first [by left | right; split; [intros []; assumption | auto] | by repeat split].
Qed.

(** [main] ends in a panic only when the game panicked. *)
Lemma main_exit_panic io r : exit_panicked (fst (main_model io r)) = true -> exists p, r = RunPanicked p.
Proof.
  main_compute. destruct r;
    repeat (match goal with |- context [io ?op] => destruct (io op) eqn:? end; cbn);
    first [discriminate | eauto].
Qed.

(** ** The whole program *)

Section Program.
Context {G : Type} `{Rng G}.
Variable words_txt : list ascii.

(** C1: With a pool of five-char secrets the program never panics, whatever
    the terminal does: [main] returns [Ok(())], returns a terminal error,
    or is still running. *)
Theorem program_never_panics g ios io :
  pool_ok words_txt -> exit_panicked (fst (main_model io (run_result_of (start words_txt g ios)))) = false.
Proof.
  intros Hpool. destruct (exit_panicked _) eqn:Hp; [|done]. apply main_exit_panic in Hp as [p Hp].
  destruct (start_no_panic words_txt g ios Hpool) as [r Hr]. rewrite Hr in Hp. by destruct r.
Qed.

(** C13: With a pool of five-char secrets and a terminal whose calls succeed,
    the program quits at the first [Esc] after any events: [main] returns
    [Ok(())] with the terminal restored. *)
Theorem program_quits_cleanly g evs kd rest io :
  pool_ok words_txt -> (forall op, io op = true) ->
  exists t, main_model io (run_result_of (start words_txt g (map Read evs ++ Read (key_event kd Esc) :: rest))) =
    (ExitOk, t) /\ restored t.
Proof.
  intros Hpool Hio. apply main_restores; [done|]. left.
  destruct (start_prefix words_txt g evs (Read (key_event kd Esc) :: rest) Hpool)
    as [-> | (app' & g' & -> & Hinv & _)]; [done|]. by rewrite run_app_esc.
Qed.

(** C14: [main] drops the loop's error: when a draw or a read fails during
    the game, the program still returns [Ok(())], as if the player had
    quit, and the error is never reported. *)
Theorem program_drops_io_error g evs e rest io :
  pool_ok words_txt -> (forall op, io op = true) -> e = DrawFailed \/ e = ReadFailed ->
  exists t, main_model io (run_result_of (start words_txt g (map Read evs ++ e :: rest))) = (ExitOk, t) /\
    restored t.
Proof.
  intros Hpool Hio He. apply main_restores; [done|].
  destruct (start_prefix words_txt g evs (e :: rest) Hpool) as [-> | (app' & g' & -> & Hinv & _)]; [by left|].
  right. by rewrite run_app_io_fail.
Qed.
(** C28: A missing or unreadable [words.txt] makes [App::default] panic at
    its [unwrap], after [main] has switched the terminal to raw mode, the
    alternate screen and mouse capture: the program crashes and leaves the
    terminal so, where the specification has a fatal startup error with
    the terminal restored. *)
Theorem missing_words_file_crashes g ios io :
  (forall op, io op = true) ->
  exists t, main_model io (run_result_of (start_file g None ios)) = (ExitPanic UnwrapFailed, t) /\
    raw_mode t = true /\ alternate_screen t = true /\ mouse_capture t = true.
Proof.
  intros Hio. cbn [start_file read_words rbind run_result_of].
  main_compute. rewrite !Hio. cbn. eexists. by repeat split.
Qed.
(** C27: A secret shorter than five chars (from an empty [words.txt], or
    the empty last line of one that ends in a newline) crashes the program
    at the player's first guess: five letters and Enter make the row loop
    index past the secret, and [main] ends in that panic with the terminal
    left in raw mode, on the alternate screen, with mouse capture on. *)
Theorem short_secret_crashes g app g' cs rest io :
  (forall op, io op = true) -> app_default words_txt g = Ok (app, g') ->
  (length (word app) < COLS)%nat -> length cs = COLS ->
  exists t, main_model io (run_result_of (start words_txt g (map press (map Char cs) ++ press Enter :: rest))) =
    (ExitPanic IndexOutOfBounds, t) /\ raw_mode t = true /\ alternate_screen t = true /\ mouse_capture t = true.
Proof.
  intros Hio Hd Hw Hcs. rewrite (start_short_secret_panics words_txt g app g' cs rest Hd Hw Hcs).
  cbn [run_result_of]. main_compute. rewrite !Hio. cbn. eexists. by repeat split.
Qed.
End Program.

(** ** Witnesses *)

Lemma main_panic_leaves_terminal_witness :
  exists t, main_model (fun _ => true) (RunPanicked IndexOutOfBounds) = (ExitPanic IndexOutOfBounds, t) /\
    raw_mode t = true /\ alternate_screen t = true /\ mouse_capture t = true.
Proof. apply main_panic_leaves_terminal. reflexivity. Defined.

Lemma main_setup_error_leaves_raw_witness :
  exists t, main_model (fun op => match op with EnterAlternateScreen => false | _ => true end) RunExited =
    (ExitErr EnterAlternateScreen, t) /\ raw_mode t = true.
Proof. apply main_setup_error_leaves_raw; reflexivity. Defined.

Lemma program_never_panics_witness :
  exit_panicked (fst (main_model (fun op => match op with DisableRawMode => false | _ => true end)
                 (run_result_of (start (lit "crane
slate") (0%N : Lcg64) (typed_in "trace" ++ DrawFailed :: typed_in "qwertyuiop"))))) = false.
Proof. apply program_never_panics. unfold pool_ok. by_decide. Defined.

Lemma missing_words_file_crashes_witness :
  exists t, main_model (fun _ => true) (run_result_of (start_file (0%N : Lcg64) None (typed_in "crane"))) =
    (ExitPanic UnwrapFailed, t) /\ raw_mode t = true /\ alternate_screen t = true /\ mouse_capture t = true.
Proof. apply missing_words_file_crashes. reflexivity. Defined.

Lemma program_quits_cleanly_witness :
  exists t, main_model (fun _ => true)
    (run_result_of (start (lit "crane
slate") (0%N : Lcg64)
      (map Read (map (key_event Press) (map Char (lit "crane") ++ [Enter])) ++
       Read (key_event Press Esc) :: []))) = (ExitOk, t) /\ restored t.
Proof. apply program_quits_cleanly; [unfold pool_ok; by_decide | reflexivity]. Defined.

Lemma program_drops_io_error_witness :
  exists t, main_model (fun _ => true)
    (run_result_of (start (lit "crane
slate") (0%N : Lcg64)
      (map Read (map (key_event Press) (map Char (lit "crane") ++ [Enter])) ++ ReadFailed :: []))) =
    (ExitOk, t) /\ restored t.
Proof. apply program_drops_io_error; [unfold pool_ok; by_decide | reflexivity | by right]. Defined.

Lemma short_secret_crashes_witness :
  exists t, main_model (fun _ => true)
      (run_result_of (start (lit "") (0%N : Lcg64) (map press (map Char (lit "crane")) ++ press Enter :: []))) =
    (ExitPanic IndexOutOfBounds, t) /\ raw_mode t = true /\ alternate_screen t = true /\ mouse_capture t = true.
Proof.
  eapply (short_secret_crashes (lit "") (0%N : Lcg64)); [done | reflexivity | vm_compute; lia | reflexivity].
Defined.
